(** * metricq-import: the chunked MySQL -> HTA import of [mysql_import.cpp]

    A shallow embedding of [stats_query] and [import] together with the
    collaborators they talk to (the source table behind the SQL
    connection, the destination metric, IEEE binary64 arithmetic and the
    64-bit machine integers), followed by the properties of the import
    loop. *)

From Stdlib Require Import ZArith List Bool Lia Sorted SpecFloat Ascii.
From Stdlib Require String.
Import ListNotations.
Open Scope Z_scope.

(** ** Machine integers

    [uint64_t] values are integers in [[0, 2^64)]; arithmetic on them wraps.
    [int64_t] is the representation of [std::chrono] durations. *)

Definition two64 : Z := 2 ^ 64.
Definition two63 : Z := 2 ^ 63.

Definition is_u64 (z : Z) : Prop := 0 <= z < two64.

Definition u64 (z : Z) : Z := z mod two64.

Definition s64 (z : Z) : Z := (z + two63) mod two64 - two63.

(** [std::max] and [std::min] on [uint64_t], as the standard library
    writes them: [max(a,b) = (a < b) ? b : a], [min(a,b) = (b < a) ? b : a]. *)

Definition std_max (a b : Z) : Z := if a <? b then b else a.
Definition std_min (a b : Z) : Z := if b <? a then b else a.

(** ** IEEE binary64

    [double] is modelled by the specification floats of the standard
    library, instantiated at precision 53 and maximal exponent 1024; the
    operations round to nearest, ties to even. *)

Definition double : Type := spec_float.

Module Double.

Definition prec : Z := 53.
Definition emax : Z := 1024.

(** Conversion of an integer to [double] ([static_cast<double>] and the
    usual arithmetic conversions). *)
Definition of_Z (n : Z) : double := binary_normalize prec emax n 0 false.

Definition div (x y : double) : double := SFdiv prec emax x y.
Definition mul (x y : double) : double := SFmul prec emax x y.

(** A (signed) zero. *)
Definition is_zero (x : double) : bool :=
  match x with S754_zero _ => true | _ => false end.

(** Finite values: zeros and finite non-zero numbers. *)
Definition is_finite (x : double) : bool :=
  match x with S754_zero _ | S754_finite _ _ _ => true | _ => false end.

(** The integer part of a finite double, truncated toward zero. *)
Definition trunc (x : double) : option Z :=
  match x with
  | S754_zero _ => Some 0
  | S754_finite s m e =>
      let a := match e with
               | Zneg p => Z.shiftr (Zpos m) (Zpos p)
               | _ => Z.shiftl (Zpos m) e
               end in
      Some (if s then - a else a)
  | S754_infinity _ | S754_nan => None
  end.

(** Floating-integral conversion to [uint64_t]: the value is truncated;
    the conversion is undefined (here [None]) when the truncated value
    is not representable, which includes NaN and the infinities. *)
Definition to_u64 (x : double) : option Z :=
  match trunc x with
  | Some z => if (0 <=? z) && (z <? two64) then Some z else None
  | None => None
  end.

End Double.

(** ** The source database *)

(** One row of the metric's table: [SELECT timestamp, value]. *)
Record source_row : Type := mk_row {
  timestamp : Z;      (* read with getUInt64: unix milliseconds *)
  value : double      (* read with getDouble *)
}.

Definition table : Type := list source_row.

(** [ORDER BY timestamp ASC]: a stable insertion sort on the timestamp. *)
Fixpoint insert_by_timestamp (r : source_row) (l : list source_row) : list source_row :=
  match l with
  | [] => [r]
  | x :: l' =>
      if timestamp x <=? timestamp r
      then x :: insert_by_timestamp r l'
      else r :: l
  end.

Definition order_by_timestamp (l : list source_row) : list source_row :=
  fold_right insert_by_timestamp [] l.

(** The prepared chunk statement
    [SELECT timestamp, value FROM m WHERE timestamp >= ? AND timestamp < ?
     ORDER BY timestamp ASC LIMIT ?] executed with its three parameters. *)
Definition where_clause (lo hi : Z) (r : source_row) : bool :=
  (lo <=? timestamp r) && (timestamp r <? hi).

Definition executeQuery (tbl : table) (lo hi limit : Z) : list source_row :=
  firstn (Z.to_nat limit) (order_by_timestamp (filter (where_clause lo hi) tbl)).

(** The aggregate statement
    [SELECT COUNT(timestamp), MIN(timestamp), MAX(timestamp) FROM m].
    An aggregate without GROUP BY yields exactly one row; over an empty
    table COUNT is 0 and MIN and MAX are NULL. *)
Record aggregate_row : Type := mk_aggregate {
  col_count : Z;
  col_min : option Z;
  col_max : option Z
}.

Definition opt_min (a : option Z) (t : Z) : option Z :=
  match a with None => Some t | Some m => Some (Z.min m t) end.
Definition opt_max (a : option Z) (t : Z) : option Z :=
  match a with None => Some t | Some m => Some (Z.max m t) end.

Definition sql_min (tbl : table) : option Z :=
  fold_left (fun a r => opt_min a (timestamp r)) tbl None.
Definition sql_max (tbl : table) : option Z :=
  fold_left (fun a r => opt_max a (timestamp r)) tbl None.

Definition executeAggregate (tbl : table) : list aggregate_row :=
  [ mk_aggregate (Z.of_nat (length tbl)) (sql_min tbl) (sql_max tbl) ].

(** [ResultSet::getUInt64] returns 0 for an SQL NULL. *)
Definition getUInt64 (c : option Z) : Z :=
  match c with Some v => v | None => 0 end.

(** The connection: [None] when statements on it throw [sql::SQLException]
    (lost connection, unknown table), otherwise the metric's table. *)
Definition connection : Type := option table.

(** ** Outcomes *)

Inductive failure : Type :=
| SQLException            (* an sql::SQLException left the function *)
| AssertionFailure        (* assert(...) aborted the process *)
| UndefinedBehaviour.     (* the C++ standard leaves the behaviour undefined *)

Inductive outcome (A : Type) : Type :=
| Returned (a : A)
| Failed (e : failure).

Arguments Returned {A} a.
Arguments Failed {A} e.

(** ** [stats_query] *)

Record stats : Type := mk_stats {
  min_timestamp : Z;
  max_timestamp : Z;
  count : Z
}.

Definition stats_query (db : connection) : outcome stats :=
  match db with
  | None => Failed SQLException
  | Some tbl =>
      match executeAggregate tbl with
      | [] => Failed AssertionFailure                (* assert(result->next()) *)
      | r :: _ =>
          Returned (mk_stats (getUInt64 (col_min r))
                             (getUInt64 (col_max r))
                             (col_count r))
      end
  end.

(** ** Chunk sizing *)

(** [static_cast<double>(stats.max_timestamp - stats.min_timestamp) / stats.count] *)
Definition sampling_interval (st : stats) : double :=
  Double.div (Double.of_Z (u64 (max_timestamp st - min_timestamp st)))
             (Double.of_Z (count st)).

(** [uint64_t chunk_timedelta = sampling_interval * max_limit / 2] *)
Definition chunk_timedelta_double (st : stats) (max_limit : Z) : double :=
  Double.div (Double.mul (sampling_interval st) (Double.of_Z max_limit))
             (Double.of_Z 2).

Definition chunk_timedelta (st : stats) (max_limit : Z) : option Z :=
  Double.to_u64 (chunk_timedelta_double st max_limit).

(** ** Destination time *)

(** [hta::TimePoint] is a [std::chrono::time_point] counting [int64_t]
    nanoseconds since the epoch; a time point is represented by that
    count.  Default construction yields the epoch. *)
Definition TimePoint : Type := Z.
Definition TimePoint_default : TimePoint := 0.

(** [hta::TimePoint{hta::duration_cast(std::chrono::milliseconds(t))}]:
    the [uint64_t] is narrowed to the [int64_t] tick count of
    [milliseconds] and scaled by 10^6 to nanoseconds.  The signed
    multiplication is written with two's-complement wrap-around; it is
    exact whenever [t * 10^6 < 2^63]. *)
Definition hta_time_of (t : Z) : TimePoint := s64 (s64 t * 1000000).

Record sample : Type := mk_sample {
  time : TimePoint;
  sample_value : double
}.


(** ** The state of [import]

    Besides the local variables of [import], the state records what the
    function did to its collaborators: the chunk queries it executed, the
    rows it fetched from their result sets, the samples it inserted into
    the destination metric, the diagnostics it printed and the number of
    flushes. *)

Record query : Type := mk_query {
  q_lower : Z;       (* setUInt64(1, current_timestamp) *)
  q_upper : Z;       (* setUInt64(2, next_timestamp) *)
  q_limit : Z        (* setUInt64(3, max_limit) *)
}.

Record importer : Type := mk_importer {
  row : Z;                                  (* uint64_t row *)
  previous_time : TimePoint;                (* hta::TimePoint previous_time *)
  current_dataheap_timestamp : option Z;    (* declared without initialiser *)
  current_timestamp : Z;
  out_metric : list sample;                 (* inserted samples, oldest first *)
  skipped : list TimePoint;                 (* "Skipping non-monotonous timestamp" lines *)
  fetched : list source_row;                (* rows delivered by res->next(), oldest first *)
  issued : list query;                      (* chunk queries executed, oldest first *)
  flushes : nat                             (* calls of out_metric.flush() *)
}.

Definition init_importer (lower : Z) : importer :=
  mk_importer 0 TimePoint_default None lower [] [] [] [] 0.

(** One turn of [while (res->next())]. *)
Definition import_row (st : importer) (r : source_row) : importer :=
  let ts := timestamp r in
  let row' := u64 (row st + 1) in
  let hta_time := hta_time_of ts in
  if hta_time <=? previous_time st
  then mk_importer row' (previous_time st) (Some ts) (current_timestamp st)
                   (out_metric st) (skipped st ++ [hta_time])
                   (fetched st ++ [r]) (issued st) (flushes st)
  else mk_importer row' hta_time (Some ts) (current_timestamp st)
                   (out_metric st ++ [mk_sample hta_time (value r)]) (skipped st)
                   (fetched st ++ [r]) (issued st) (flushes st).

Definition import_rows (res : list source_row) (st : importer) : importer :=
  fold_left import_row res st.

Definition set_current (st : importer) (t : Z) : importer :=
  mk_importer (row st) (previous_time st) (current_dataheap_timestamp st) t
              (out_metric st) (skipped st) (fetched st) (issued st) (flushes st).

Definition record_query (st : importer) (q : query) : importer :=
  mk_importer (row st) (previous_time st) (current_dataheap_timestamp st)
              (current_timestamp st) (out_metric st) (skipped st) (fetched st)
              (issued st ++ [q]) (flushes st).

Definition flush (st : importer) : importer :=
  mk_importer (row st) (previous_time st) (current_dataheap_timestamp st)
              (current_timestamp st) (out_metric st) (skipped st) (fetched st)
              (issued st) (S (flushes st)).

(** [std::min(current_timestamp + chunk_timedelta, max_timestamp)] *)
Definition next_timestamp_of (chunk_delta upper current : Z) : Z :=
  std_min (u64 (current + chunk_delta)) upper.

(** The query a turn of the outer loop executes from state [st]. *)
Definition chunk_query (chunk_delta upper max_limit : Z) (st : importer) : query :=
  mk_query (current_timestamp st)
           (next_timestamp_of chunk_delta upper (current_timestamp st))
           max_limit.

Definition run_query (tbl : table) (q : query) : list source_row :=
  executeQuery tbl (q_lower q) (q_upper q) (q_limit q).

(** One turn of the outer [while (true)].  The connection is a fixed table
    for the whole run: an [sql::SQLException] thrown by [executeQuery]
    inside the loop, or an exception of the destination's [insert] and
    [flush], ends the run in the program and is not part of a turn here. *)
Inductive turn : Type :=
| Completed (st : importer)      (* the loop printed its summary and returned *)
| Continue (st : importer)       (* the loop goes round again *)
| Stuck.                         (* an indeterminate value was read *)

Definition import_turn (tbl : table) (chunk_delta upper max_limit : Z)
    (st : importer) : turn :=
  if upper <=? current_timestamp st then Completed st
  else
    let q := chunk_query chunk_delta upper max_limit st in
    let res := run_query tbl q in
    let st1 := record_query st q in
    if Z.of_nat (length res) =? 0                       (* res->rowsCount() == 0 *)
    then Continue (set_current st1 (q_upper q))
    else
      let st2 := flush (import_rows res st1) in
      match current_dataheap_timestamp st2 with
      | Some last => Continue (set_current st2 (u64 (last + 1)))
      | None => Stuck
      end.

(** What a run of the loop amounts to once [fuel] turns were allowed. *)
Inductive run : Type :=
| Finished (st : importer)       (* import returned; [row st] was reported *)
| Running (st : importer)        (* still looping, in state [st] at the loop head *)
| Aborted (e : failure).

Fixpoint import_loop (fuel : nat) (tbl : table) (chunk_delta upper max_limit : Z)
    (st : importer) : run :=
  match fuel with
  | O => Running st
  | S fuel' =>
      match import_turn tbl chunk_delta upper max_limit st with
      | Completed st' => Finished st'
      | Continue st' => import_loop fuel' tbl chunk_delta upper max_limit st'
      | Stuck => Aborted UndefinedBehaviour
      end
  end.

(** The clamped bounds computed at the head of [import]. *)
Definition lower_bound (requested_min : Z) (st : stats) : Z :=
  std_max requested_min (min_timestamp st).

Definition upper_bound (requested_max : Z) (st : stats) : Z :=
  if requested_max =? 0
  then u64 (max_timestamp st + 1)
  else std_min requested_max (u64 (max_timestamp st + 1)).

(** [import]; [fuel] bounds the number of turns of the outer loop. *)
Definition import (fuel : nat) (in_db : connection)
    (requested_min requested_max max_limit : Z) : run :=
  match in_db, stats_query in_db with
  | Some tbl, Returned st =>
      let lower := lower_bound requested_min st in
      let upper := upper_bound requested_max st in
      match chunk_timedelta st max_limit with
      | None => Aborted UndefinedBehaviour
      | Some chunk_delta =>
          import_loop fuel tbl chunk_delta upper max_limit (init_importer lower)
      end
  | _, Failed e => Aborted e
  | None, Returned _ => Aborted SQLException
  end.

(** A state the run has reached: at its end or at a loop head. *)
Definition reached (r : run) (st : importer) : Prop :=
  r = Finished st \/ r = Running st.

(** ** The monotonicity filter, read off the description of the algorithm

    A row is accepted when its converted timestamp is strictly greater
    than the cursor, and then becomes the cursor; a rejected row leaves the
    cursor alone. *)

Fixpoint monotone_filter (cursor : TimePoint) (rows : list source_row) : list sample :=
  match rows with
  | [] => []
  | r :: rs =>
      let t := hta_time_of (timestamp r) in
      if cursor <? t
      then mk_sample t (value r) :: monotone_filter t rs
      else monotone_filter cursor rs
  end.

Fixpoint monotone_rejects (cursor : TimePoint) (rows : list source_row) : list TimePoint :=
  match rows with
  | [] => []
  | r :: rs =>
      let t := hta_time_of (timestamp r) in
      if cursor <? t
      then monotone_rejects t rs
      else t :: monotone_rejects cursor rs
  end.

Fixpoint cursor_after (cursor : TimePoint) (rows : list source_row) : TimePoint :=
  match rows with
  | [] => cursor
  | r :: rs =>
      let t := hta_time_of (timestamp r) in
      cursor_after (if cursor <? t then t else cursor) rs
  end.

(** The time of the last inserted sample, or the initial cursor. *)
Definition last_accepted (samples : list sample) : TimePoint :=
  match rev samples with
  | [] => TimePoint_default
  | s :: _ => time s
  end.

(** The bookkeeping of a state agrees with the rows fetched so far. *)
Record consistent (st : importer) : Prop := mk_consistent {
  inv_out : out_metric st = monotone_filter TimePoint_default (fetched st);
  inv_skipped : skipped st = monotone_rejects TimePoint_default (fetched st);
  inv_cursor : previous_time st = cursor_after TimePoint_default (fetched st);
  inv_row : row st = u64 (Z.of_nat (length (fetched st)))
}.

(** ** The clamped bounds, read off the data model

    [lowerBound = max(requestedMin, stats.minTimestamp)];
    [upperBound = requestedMax != 0 ? min(requestedMax, stats.maxTimestamp + 1)
                                    : stats.maxTimestamp + 1], all of type u64. *)

Definition spec_lower_bound (requested_min : Z) (st : stats) : Z :=
  Z.max requested_min (min_timestamp st).

Definition spec_upper_bound (requested_max : Z) (st : stats) : Z :=
  if negb (requested_max =? 0)
  then Z.min requested_max (u64 (max_timestamp st + 1))
  else u64 (max_timestamp st + 1).

(** ** Well-formed inputs *)

Definition well_formed (tbl : table) : Prop :=
  Forall (fun r => is_u64 (timestamp r)) tbl.

(** ** Scenarios *)

Definition zero : double := S754_zero false.
Definition rows_at (ts : list Z) : table := map (fun t => mk_row t zero) ts.

Definition scenario_A : table := rows_at [100; 200; 300; 400; 500].
Definition scenario_B : table := rows_at [100; 200; 200; 300].
Definition scenario_C : list source_row := rows_at [100; 300; 200; 400].
Definition single_row : table := rows_at [100].
Definition bursty : table := rows_at [100; 101; 102; 103; 1000].

(** The default of [--mysql-chunk-size] in [main]. *)
Definition default_chunk_size : Z := 20000000.

Definition state_of (r : run) : importer :=
  match r with
  | Finished st | Running st => st
  | Aborted _ => init_importer 0
  end.

(** The shape of a rounded result: a zero of sign [s], or a finite number
    of sign [s] whose exponent lies in the given range and whose mantissa
    has at most 54 bits. *)
Definition finite_within (s : bool) (lo hi : Z) (x : spec_float) : Prop :=
  x = S754_zero s \/
  exists m e, x = S754_finite s m e /\ lo <= e <= hi /\ Zpos m < 2 ^ 54.

Definition finite_upto (s : bool) (hi : Z) (x : spec_float) : Prop :=
  x = S754_zero s \/
  exists m e, x = S754_finite s m e /\ e <= hi /\ Zpos m < 2 ^ 54.

(** A source with one stray microsecond timestamp among millisecond ones. *)
Definition stray_microseconds : table := rows_at [0; 1700000000000000].

(** Scenario A with a row cap of 2 (chunk width 80, bounds [100, 501)):
    the state at the head of the second turn. *)
Definition scenario_A_second : importer :=
  Eval vm_compute in
    match import_turn scenario_A 80 501 2 (init_importer 100) with
    | Continue st => st
    | _ => init_importer 100
    end.

(** Scenario B imported with the default row cap. *)
Definition scenario_B_final : importer :=
  Eval vm_compute in state_of (import 20 (Some scenario_B) 0 0 default_chunk_size).

(** ** Coverage of the source by the chunks

    [by_timestamp] is the order of [ORDER BY timestamp ASC].  A state
    [covers] the source up to [current_timestamp] when the rows fetched so
    far are rows of the table inside the clamped bounds, lie below
    [current_timestamp], came in ascending order, and every timestamp the
    table holds between the lower bound and [current_timestamp] is the
    timestamp of a fetched row. *)

Definition by_timestamp (a b : source_row) : Prop := timestamp a <= timestamp b.

Record covers (tbl : table) (lower upper : Z) (st : importer) : Prop := mk_covers {
  cov_lower : lower <= current_timestamp st;
  cov_rows : Forall (fun r => In r tbl /\ lower <= timestamp r < upper) (fetched st);
  cov_below : Forall (fun r => timestamp r < current_timestamp st) (fetched st);
  cov_sorted : StronglySorted by_timestamp (fetched st);
  cov_all : forall r, In r tbl ->
                      lower <= timestamp r < current_timestamp st ->
                      timestamp r < upper ->
                      In (timestamp r) (map timestamp (fetched st))
}.

(** Sources whose timestamps convert to nanoseconds without overflow
    (unix milliseconds up to the year 2262). *)
Definition dated (tbl : table) : Prop :=
  Forall (fun r => 0 <= timestamp r <= 9223372036854) tbl.

(** The number of chunk queries in a log that deliver at least one row. *)
Definition delivering (tbl : table) (qs : list query) : nat :=
  length (filter (fun q => negb (Nat.eqb (length (run_query tbl q)) 0)) qs).

(** The range the caller asks for: [--min-timestamp] inclusive,
    [--max-timestamp] exclusive, 0 meaning no upper limit. *)
Definition requested (requested_min requested_max t : Z) : Prop :=
  requested_min <= t /\ (requested_max = 0 \/ t < requested_max).

(** ** Names and configuration in [main] *)

(** [std::replace(first, last, old_value, new_value)] over a string. *)
Fixpoint std_replace (old_value new_value : ascii) (s : String.string) : String.string :=
  match s with
  | String.EmptyString => String.EmptyString
  | String.String c s' =>
      String.String (if Ascii.eqb c old_value then new_value else c)
                    (std_replace old_value new_value s')
  end.

(** The name of the source table: the value of [--import-metric] when it
    is given, otherwise the metric name with every '.' replaced by '_'. *)
Definition in_metric_name (metric : String.string) (import_metric : option String.string)
  : String.string :=
  match import_metric with
  | Some name => name
  | None => std_replace "."%char "_"%char metric
  end.

(** A metric name without '.': [a_b]. *)
Definition dotless_name : String.string :=
  String.String "a"%char (String.String "_"%char (String.String "b"%char String.EmptyString)).

Section Config.

(** An element of [config["metrics"]], and the test
    [metric_config["name"] == out_metric_name]. *)
Variable metric_config : Type.
Variable has_name : metric_config -> String.string -> bool.

(** The loop over [config["metrics"]]: at the first element with the
    metric's name the array is replaced by that element alone and the
    loop is left; without such an element the array stays as it is. *)
Fixpoint select_metric_from (out_metric_name : String.string)
    (rest metrics : list metric_config) : list metric_config :=
  match rest with
  | [] => metrics
  | m :: rest' =>
      if has_name m out_metric_name then [m]
      else select_metric_from out_metric_name rest' metrics
  end.

Definition select_metric (out_metric_name : String.string)
    (metrics : list metric_config) : list metric_config :=
  select_metric_from out_metric_name metrics metrics.

End Config.

(** * Properties *)

(** ** Machine arithmetic *)

Lemma two64_eq : two64 = 18446744073709551616.
Proof. reflexivity. Qed.

Lemma two63_eq : two63 = 9223372036854775808.
Proof. reflexivity. Qed.

Lemma u64_id (z : Z) : is_u64 z -> u64 z = z.
Proof. unfold is_u64, u64. intros H. now apply Z.mod_small. Qed.

Lemma u64_range (z : Z) : is_u64 (u64 z).
Proof. unfold is_u64, u64. apply Z.mod_pos_bound. rewrite two64_eq. lia. Qed.

Lemma u64_le (z : Z) : 0 <= z -> u64 z <= z.
Proof. unfold u64. intros H. apply Z.mod_le; [assumption | rewrite two64_eq; lia]. Qed.

Lemma s64_id (z : Z) : - two63 <= z < two63 -> s64 z = z.
Proof.
  unfold s64. intros H. rewrite Z.mod_small; [lia |].
  rewrite two64_eq. rewrite two63_eq in *. lia.
Qed.

Lemma std_max_spec (a b : Z) : std_max a b = Z.max a b.
Proof. unfold std_max. destruct (Z.ltb_spec a b); lia. Qed.

Lemma std_min_spec (a b : Z) : std_min a b = Z.min a b.
Proof. unfold std_min. destruct (Z.ltb_spec b a); lia. Qed.

Lemma hta_time_of_exact (t : Z) :
  0 <= t <= 9223372036854 -> hta_time_of t = t * 1000000.
Proof.
  intros H. unfold hta_time_of.
  rewrite (s64_id t) by (rewrite two63_eq; lia).
  apply s64_id. rewrite two63_eq. lia.
Qed.

(** ** The chunk query *)

Lemma insert_by_timestamp_In (r x : source_row) (l : list source_row) :
  In x (insert_by_timestamp r l) <-> x = r \/ In x l.
Proof.
  induction l as [|y l IH]; simpl.
  - intuition.
  - destruct (timestamp y <=? timestamp r); simpl; rewrite ?IH; intuition.
Qed.

Lemma order_by_timestamp_In (x : source_row) (l : list source_row) :
  In x (order_by_timestamp l) <-> In x l.
Proof.
  induction l as [|y l IH]; simpl; [tauto |].
  rewrite insert_by_timestamp_In, IH. intuition.
Qed.

Lemma insert_by_timestamp_length (r : source_row) (l : list source_row) :
  length (insert_by_timestamp r l) = S (length l).
Proof.
  induction l as [|y l IH]; simpl; [reflexivity |].
  destruct (timestamp y <=? timestamp r); simpl; congruence.
Qed.

Lemma order_by_timestamp_length (l : list source_row) :
  length (order_by_timestamp l) = length l.
Proof.
  induction l as [|y l IH]; simpl; [reflexivity |].
  rewrite insert_by_timestamp_length. congruence.
Qed.

Lemma firstn_In {A : Type} (n : nat) (l : list A) (x : A) :
  In x (firstn n l) -> In x l.
Proof.
  revert l. induction n as [|n IH]; intros [|y l]; simpl; try tauto.
  intros [H | H]; [now left | right; now apply IH].
Qed.

Lemma executeQuery_In (tbl : table) (lo hi limit : Z) (r : source_row) :
  In r (executeQuery tbl lo hi limit) ->
  In r tbl /\ lo <= timestamp r < hi.
Proof.
  unfold executeQuery. intros H.
  apply firstn_In, order_by_timestamp_In, filter_In in H.
  destruct H as [Hin Hw]. split; [assumption |].
  unfold where_clause in Hw. apply andb_true_iff in Hw. lia.
Qed.

Lemma executeQuery_empty_window (tbl : table) (lo hi limit : Z) :
  hi <= lo -> executeQuery tbl lo hi limit = [].
Proof.
  intros H. destruct (executeQuery tbl lo hi limit) as [|r l] eqn:E; [reflexivity |].
  assert (Hin : In r (executeQuery tbl lo hi limit)) by (rewrite E; now left).
  apply executeQuery_In in Hin. lia.
Qed.

Lemma executeQuery_length (tbl : table) (lo hi limit : Z) :
  (length (executeQuery tbl lo hi limit) <= Z.to_nat limit)%nat.
Proof. unfold executeQuery. apply firstn_le_length. Qed.

(** ** The inner loop *)

Lemma import_rows_app (l1 l2 : list source_row) (st : importer) :
  import_rows (l1 ++ l2) st = import_rows l2 (import_rows l1 st).
Proof. unfold import_rows. apply fold_left_app. Qed.

Lemma monotone_filter_app (l1 l2 : list source_row) (c : TimePoint) :
  monotone_filter c (l1 ++ l2) =
  monotone_filter c l1 ++ monotone_filter (cursor_after c l1) l2.
Proof.
  revert c. induction l1 as [|r l1 IH]; intros c; simpl; [reflexivity |].
  destruct (c <? hta_time_of (timestamp r)); simpl; now rewrite IH.
Qed.

Lemma monotone_rejects_app (l1 l2 : list source_row) (c : TimePoint) :
  monotone_rejects c (l1 ++ l2) =
  monotone_rejects c l1 ++ monotone_rejects (cursor_after c l1) l2.
Proof.
  revert c. induction l1 as [|r l1 IH]; intros c; simpl; [reflexivity |].
  destruct (c <? hta_time_of (timestamp r)); simpl; now rewrite IH.
Qed.

Lemma cursor_after_app (l1 l2 : list source_row) (c : TimePoint) :
  cursor_after c (l1 ++ l2) = cursor_after (cursor_after c l1) l2.
Proof.
  revert c. induction l1 as [|r l1 IH]; intros c; simpl; [reflexivity |].
  apply IH.
Qed.

Lemma cursor_after_ge (l : list source_row) (c : TimePoint) :
  c <= cursor_after c l.
Proof.
  revert c. induction l as [|r l IH]; intros c; simpl; [lia |].
  destruct (Z.ltb_spec c (hta_time_of (timestamp r))).
  - specialize (IH (hta_time_of (timestamp r))). lia.
  - apply IH.
Qed.

(** Every accepted time lies strictly above the cursor the filter started
    from and at most at the cursor it ends with; the accepted times
    increase strictly. *)
Lemma monotone_filter_sorted (l : list source_row) (c : TimePoint) :
  StronglySorted Z.lt (map time (monotone_filter c l)) /\
  Forall (fun t => c < t <= cursor_after c l) (map time (monotone_filter c l)).
Proof.
  revert c. induction l as [|r l IH]; intros c; simpl.
  - split; constructor.
  - destruct (Z.ltb_spec c (hta_time_of (timestamp r))) as [Hlt | Hge]; simpl.
    + destruct (IH (hta_time_of (timestamp r))) as [Hs Hf]. split.
      * constructor; [assumption |].
        eapply Forall_impl; [| exact Hf]. simpl. intros t Ht. lia.
      * constructor.
        -- split; [assumption | apply cursor_after_ge].
        -- eapply Forall_impl; [| exact Hf]. simpl. intros t Ht. lia.
    + apply IH.
Qed.

Lemma last_accepted_snoc (l : list sample) (s : sample) :
  last_accepted (l ++ [s]) = time s.
Proof. unfold last_accepted. now rewrite rev_app_distr. Qed.

(** What one fetched row does to the state. *)
Lemma import_row_accept (st : importer) (r : source_row) :
  previous_time st < hta_time_of (timestamp r) ->
  import_row st r =
  mk_importer (u64 (row st + 1)) (hta_time_of (timestamp r)) (Some (timestamp r))
              (current_timestamp st)
              (out_metric st ++ [mk_sample (hta_time_of (timestamp r)) (value r)])
              (skipped st) (fetched st ++ [r]) (issued st) (flushes st).
Proof.
  intros H. unfold import_row.
  destruct (Z.leb_spec (hta_time_of (timestamp r)) (previous_time st)); [lia | reflexivity].
Qed.

Lemma import_row_reject (st : importer) (r : source_row) :
  hta_time_of (timestamp r) <= previous_time st ->
  import_row st r =
  mk_importer (u64 (row st + 1)) (previous_time st) (Some (timestamp r))
              (current_timestamp st) (out_metric st)
              (skipped st ++ [hta_time_of (timestamp r)])
              (fetched st ++ [r]) (issued st) (flushes st).
Proof.
  intros H. unfold import_row.
  destruct (Z.leb_spec (hta_time_of (timestamp r)) (previous_time st)); [reflexivity | lia].
Qed.

Lemma u64_succ (z : Z) : u64 (u64 z + 1) = u64 (z + 1).
Proof. unfold u64. apply Z.add_mod_idemp_l. rewrite two64_eq. lia. Qed.

Lemma consistent_init (lower : Z) : consistent (init_importer lower).
Proof. constructor; reflexivity. Qed.

Lemma import_row_consistent (st : importer) (r : source_row) :
  consistent st -> consistent (import_row st r).
Proof.
  intros [Ho Hs Hc Hr].
  assert (Hlen : u64 (row st + 1) = u64 (Z.of_nat (length (fetched st ++ [r])))).
  { rewrite Hr, u64_succ, length_app. simpl. f_equal. lia. }
  destruct (Z.leb_spec (hta_time_of (timestamp r)) (previous_time st)) as [Hle | Hgt].
  - rewrite (import_row_reject st r Hle).
    assert (Hb : (cursor_after TimePoint_default (fetched st)
                  <? hta_time_of (timestamp r)) = false)
      by (apply Z.ltb_ge; rewrite <- Hc; exact Hle).
    constructor; simpl.
    + rewrite monotone_filter_app. simpl. rewrite Hb. now rewrite app_nil_r.
    + rewrite monotone_rejects_app. simpl. rewrite Hb. now rewrite Hs.
    + rewrite cursor_after_app. simpl. now rewrite Hb.
    + exact Hlen.
  - rewrite (import_row_accept st r Hgt).
    assert (Hb : (cursor_after TimePoint_default (fetched st)
                  <? hta_time_of (timestamp r)) = true)
      by (apply Z.ltb_lt; rewrite <- Hc; exact Hgt).
    constructor; simpl.
    + rewrite monotone_filter_app. simpl. rewrite Hb. now rewrite Ho.
    + rewrite monotone_rejects_app. simpl. rewrite Hb. now rewrite app_nil_r.
    + rewrite cursor_after_app. simpl. now rewrite Hb.
    + exact Hlen.
Qed.

Lemma import_rows_consistent (res : list source_row) (st : importer) :
  consistent st -> consistent (import_rows res st).
Proof.
  revert st. induction res as [|r res IH]; intros st H; simpl; [assumption |].
  apply IH, import_row_consistent, H.
Qed.

(** Fields the inner loop leaves alone, and those it sets. *)
Lemma import_row_frame (st : importer) (r : source_row) :
  current_timestamp (import_row st r) = current_timestamp st /\
  issued (import_row st r) = issued st /\
  flushes (import_row st r) = flushes st /\
  fetched (import_row st r) = fetched st ++ [r] /\
  current_dataheap_timestamp (import_row st r) = Some (timestamp r).
Proof.
  unfold import_row.
  destruct (hta_time_of (timestamp r) <=? previous_time st); simpl; repeat split.
Qed.

Lemma import_rows_frame (res : list source_row) (st : importer) :
  current_timestamp (import_rows res st) = current_timestamp st /\
  issued (import_rows res st) = issued st /\
  flushes (import_rows res st) = flushes st /\
  fetched (import_rows res st) = fetched st ++ res.
Proof.
  revert st. induction res as [|r res IH]; intros st; simpl.
  - rewrite app_nil_r. repeat split.
  - destruct (IH (import_row st r)) as (H1 & H2 & H3 & H4).
    destruct (import_row_frame st r) as (F1 & F2 & F3 & F4 & _).
    rewrite H1, H2, H3, H4, F1, F2, F3, F4, <- app_assoc. repeat split.
Qed.

(** After a non-empty result set, [current_dataheap_timestamp] holds the
    raw timestamp of the last row fetched. *)
Lemma import_rows_last (res : list source_row) (r : source_row) (st : importer) :
  current_dataheap_timestamp (import_rows (res ++ [r]) st) = Some (timestamp r).
Proof.
  rewrite import_rows_app. simpl. apply import_row_frame.
Qed.

Lemma nonempty_snoc {A : Type} (l : list A) :
  l <> [] -> exists l' x, l = l' ++ [x].
Proof.
  intros H. destruct (exists_last H) as (l' & x & E). now exists l', x.
Qed.

(** ** One turn of the outer loop *)

Lemma import_turn_completed (tbl : table) (delta upper limit : Z) (st st' : importer) :
  import_turn tbl delta upper limit st = Completed st' ->
  st' = st /\ upper <= current_timestamp st.
Proof.
  unfold import_turn. destruct (Z.leb_spec upper (current_timestamp st)) as [H | H].
  - intros E. injection E as <-. now split.
  - destruct (Z.of_nat (length _) =? 0); [discriminate |].
    destruct (current_dataheap_timestamp _); discriminate.
Qed.

(** The two ways a turn goes round again. *)
Lemma import_turn_continue (tbl : table) (delta upper limit : Z) (st st' : importer) :
  import_turn tbl delta upper limit st = Continue st' ->
  let q := chunk_query delta upper limit st in
  current_timestamp st < upper /\
  (run_query tbl q = [] /\
   st' = set_current (record_query st q) (q_upper q)
   \/
   exists res last,
     run_query tbl q = res ++ [last] /\
     st' = set_current (flush (import_rows (res ++ [last]) (record_query st q)))
                       (u64 (timestamp last + 1))).
Proof.
  intros E q. unfold import_turn in E. fold q in E.
  destruct (Z.leb_spec upper (current_timestamp st)) as [H | H]; [discriminate |].
  split; [assumption |].
  destruct (run_query tbl q) as [|r0 l0] eqn:Eq.
  - left. simpl in E. injection E as <-. now split.
  - right. destruct (@nonempty_snoc _ (r0 :: l0)) as (res & last & El); [discriminate |].
    rewrite El in *. exists res, last. split; [reflexivity |].
    replace (Z.of_nat (length (res ++ [last])) =? 0) with false in E.
    2:{ symmetry. apply Z.eqb_neq. rewrite length_app. simpl. lia. }
    unfold flush in E at 1. simpl in E.
    rewrite import_rows_last in E. injection E as <-. reflexivity.
Qed.

Lemma import_turn_total (tbl : table) (delta upper limit : Z) (st : importer) :
  import_turn tbl delta upper limit st <> Stuck.
Proof.
  unfold import_turn. destruct (upper <=? current_timestamp st); [discriminate |].
  set (q := chunk_query delta upper limit st).
  destruct (run_query tbl q) as [|r0 l0] eqn:Eq; [discriminate |].
  destruct (@nonempty_snoc _ (r0 :: l0)) as (res & last & El); [discriminate |].
  rewrite El.
  replace (Z.of_nat (length (res ++ [last])) =? 0) with false.
  2:{ symmetry. apply Z.eqb_neq. rewrite length_app. simpl. lia. }
  unfold flush at 1. simpl. rewrite import_rows_last. discriminate.
Qed.

Lemma import_turn_consistent (tbl : table) (delta upper limit : Z) (st st' : importer) :
  consistent st ->
  import_turn tbl delta upper limit st = Continue st' ->
  consistent st'.
Proof.
  intros Hc E. apply import_turn_continue in E. destruct E as [_ [[_ ->] | (res & last & _ & ->)]].
  - destruct Hc. constructor; assumption.
  - assert (H : consistent (import_rows (res ++ [last])
                              (record_query st (chunk_query delta upper limit st)))).
    { apply import_rows_consistent. destruct Hc. constructor; assumption. }
    destruct H. constructor; assumption.
Qed.

(** ** Invariants of the outer loop *)

Lemma import_loop_invariant (P : importer -> Prop)
    (tbl : table) (delta upper limit : Z) :
  (forall st st', P st -> import_turn tbl delta upper limit st = Continue st' -> P st') ->
  forall fuel st st',
    P st -> reached (import_loop fuel tbl delta upper limit st) st' -> P st'.
Proof.
  intros Hstep. induction fuel as [|fuel IH]; intros st st' HP [H | H]; simpl in H.
  - discriminate.
  - now injection H as <-.
  - destruct (import_turn tbl delta upper limit st) as [s | s |] eqn:E; try discriminate.
    + apply import_turn_completed in E. destruct E as [-> _]. now injection H as <-.
    + apply (IH s st'); [eauto | now left].
  - destruct (import_turn tbl delta upper limit st) as [s | s |] eqn:E; try discriminate.
    apply (IH s st'); [eauto | now right].
Qed.

Lemma import_reached (fuel : nat) (db : connection) (rmin rmax limit : Z) (st : importer) :
  reached (import fuel db rmin rmax limit) st ->
  exists tbl sts delta,
    db = Some tbl /\ stats_query db = Returned sts /\
    chunk_timedelta sts limit = Some delta /\
    reached (import_loop fuel tbl delta (upper_bound rmax sts) limit
                         (init_importer (lower_bound rmin sts))) st.
Proof.
  unfold import. intros H.
  destruct db as [tbl |]; [| destruct H; discriminate].
  destruct (stats_query (Some tbl)) as [sts | e] eqn:Es; [| destruct H; discriminate].
  destruct (chunk_timedelta sts limit) as [delta |] eqn:Ed; [| destruct H; discriminate].
  exists tbl, sts, delta. repeat split; assumption.
Qed.

Lemma import_consistent (fuel : nat) (db : connection) (rmin rmax limit : Z) (st : importer) :
  reached (import fuel db rmin rmax limit) st -> consistent st.
Proof.
  intros H. apply import_reached in H. destruct H as (tbl & sts & delta & _ & _ & _ & H).
  eapply import_loop_invariant; [| | exact H].
  - intros s s'. apply import_turn_consistent.
  - apply consistent_init.
Qed.

Lemma import_turn_done (tbl : table) (delta upper limit : Z) (st : importer) :
  upper <= current_timestamp st ->
  import_turn tbl delta upper limit st = Completed st.
Proof.
  intros H. unfold import_turn.
  destruct (Z.leb_spec upper (current_timestamp st)); [reflexivity | lia].
Qed.

Lemma import_turn_empty (tbl : table) (delta upper limit : Z) (st : importer) :
  current_timestamp st < upper ->
  run_query tbl (chunk_query delta upper limit st) = [] ->
  import_turn tbl delta upper limit st =
  Continue (set_current (record_query st (chunk_query delta upper limit st))
                        (q_upper (chunk_query delta upper limit st))).
Proof.
  intros H E. unfold import_turn.
  destruct (Z.leb_spec upper (current_timestamp st)); [lia |].
  now rewrite E.
Qed.

Lemma import_turn_rows (tbl : table) (delta upper limit : Z) (st : importer)
    (res : list source_row) (last : source_row) :
  current_timestamp st < upper ->
  run_query tbl (chunk_query delta upper limit st) = res ++ [last] ->
  import_turn tbl delta upper limit st =
  Continue (set_current
              (flush (import_rows (res ++ [last])
                        (record_query st (chunk_query delta upper limit st))))
              (u64 (timestamp last + 1))).
Proof.
  intros H E. unfold import_turn.
  destruct (Z.leb_spec upper (current_timestamp st)); [lia |].
  rewrite E.
  replace (Z.of_nat (length (res ++ [last])) =? 0) with false.
  2:{ symmetry. apply Z.eqb_neq. rewrite length_app. simpl. lia. }
  unfold flush at 1. simpl. now rewrite import_rows_last.
Qed.

Lemma run_query_In (tbl : table) (q : query) (r : source_row) :
  In r (run_query tbl q) -> In r tbl /\ q_lower q <= timestamp r < q_upper q.
Proof. apply executeQuery_In. Qed.

Lemma next_timestamp_le_upper (delta upper current : Z) :
  next_timestamp_of delta upper current <= upper.
Proof. unfold next_timestamp_of. rewrite std_min_spec. lia. Qed.

(** ** The range probe on a table *)

Lemma fold_opt_min (l : table) (a : Z) :
  exists m, fold_left (fun a r => opt_min a (timestamp r)) l (Some a) = Some m /\
            m <= a /\ Forall (fun r => m <= timestamp r) l /\
            (m = a \/ exists r, In r l /\ timestamp r = m).
Proof.
  revert a. induction l as [|x l IH]; intros a; simpl.
  - exists a. repeat split; [lia | constructor | now left].
  - destruct (IH (Z.min a (timestamp x))) as (m & E & Hle & Hall & Hwit).
    exists m. repeat split; [assumption | lia | |].
    + constructor; [lia | assumption].
    + destruct Hwit as [-> | (r & Hin & Hr)].
      * destruct (Z.min_spec a (timestamp x)) as [[_ ->] | [_ ->]]; [now left |].
        right. exists x. split; [now left | reflexivity].
      * right. exists r. split; [now right | assumption].
Qed.

Lemma fold_opt_max (l : table) (a : Z) :
  exists m, fold_left (fun a r => opt_max a (timestamp r)) l (Some a) = Some m /\
            a <= m /\ Forall (fun r => timestamp r <= m) l /\
            (m = a \/ exists r, In r l /\ timestamp r = m).
Proof.
  revert a. induction l as [|x l IH]; intros a; simpl.
  - exists a. repeat split; [lia | constructor | now left].
  - destruct (IH (Z.max a (timestamp x))) as (m & E & Hle & Hall & Hwit).
    exists m. repeat split; [assumption | lia | |].
    + constructor; [lia | assumption].
    + destruct Hwit as [-> | (r & Hin & Hr)].
      * destruct (Z.max_spec a (timestamp x)) as [[_ ->] | [_ ->]]; [| now left].
        right. exists x. split; [now left | reflexivity].
      * right. exists r. split; [now right | assumption].
Qed.

(** The probe never fails on a reachable table, whatever its contents. *)
Lemma stats_query_table (tbl : table) :
  stats_query (Some tbl) =
  Returned (mk_stats (getUInt64 (sql_min tbl)) (getUInt64 (sql_max tbl))
                     (Z.of_nat (length tbl))).
Proof. reflexivity. Qed.

(** On a non-empty well-formed table the statistics are the extent of the
    timestamps and the number of rows. *)
Lemma stats_query_extent (tbl : table) (sts : stats) :
  well_formed tbl -> tbl <> [] ->
  stats_query (Some tbl) = Returned sts ->
  is_u64 (min_timestamp sts) /\ is_u64 (max_timestamp sts) /\
  min_timestamp sts <= max_timestamp sts /\
  count sts = Z.of_nat (length tbl) /\ 1 <= count sts /\
  Forall (fun r => min_timestamp sts <= timestamp r <= max_timestamp sts) tbl.
Proof.
  intros Hwf Hne. rewrite stats_query_table. intros E. injection E as <-.
  destruct tbl as [|x l]; [congruence |]. simpl.
  unfold sql_min, sql_max. simpl.
  destruct (fold_opt_min l (timestamp x)) as (mn & -> & Hmn & Hamn & Hwmn).
  destruct (fold_opt_max l (timestamp x)) as (mx & -> & Hmx & Hamx & Hwmx).
  simpl. inversion Hwf as [|? ? Hx Hl]; subst.
  assert (Hu : forall m, (m = timestamp x \/ exists r, In r l /\ timestamp r = m) -> is_u64 m).
  { intros m [-> | (r & Hin & <-)]; [assumption |].
    rewrite Forall_forall in Hl. now apply Hl. }
  repeat split; try (apply Hu; assumption); try lia.
  constructor; [lia |].
  rewrite Forall_forall in *. intros r Hr.
  specialize (Hamn r Hr). specialize (Hamx r Hr). lia.
Qed.

Lemma stats_query_nonneg (tbl : table) (sts : stats) :
  well_formed tbl ->
  stats_query (Some tbl) = Returned sts ->
  is_u64 (min_timestamp sts) /\ is_u64 (max_timestamp sts) /\
  min_timestamp sts <= max_timestamp sts.
Proof.
  intros Hwf E. destruct tbl as [|x l].
  - injection E as <-. simpl. unfold is_u64. rewrite two64_eq. lia.
  - eapply stats_query_extent in E; [| exact Hwf | discriminate]. tauto.
Qed.

(** ** Accounting *)

Lemma monotone_split_length (l : list source_row) (c : TimePoint) :
  (length (monotone_filter c l) + length (monotone_rejects c l) = length l)%nat.
Proof.
  revert c. induction l as [|r l IH]; intros c; simpl; [reflexivity |].
  destruct (c <? hta_time_of (timestamp r)); simpl;
    [rewrite <- (IH (hta_time_of (timestamp r))) | rewrite <- (IH c)]; lia.
Qed.




(** ** Progress of the outer loop *)

(** With a zero chunk width the window [current, next) is empty, the
    query returns nothing and the turn leaves [current_timestamp] where it
    was. *)
Lemma import_turn_stalls (tbl : table) (upper limit : Z) (st : importer) :
  0 <= current_timestamp st < upper -> upper <= two64 ->
  exists st',
    import_turn tbl 0 upper limit st = Continue st' /\
    current_timestamp st' = current_timestamp st /\
    out_metric st' = out_metric st /\ row st' = row st /\
    issued st' = issued st ++ [mk_query (current_timestamp st) (current_timestamp st) limit].
Proof.
  intros Hc Hu.
  assert (Hq : chunk_query 0 upper limit st
               = mk_query (current_timestamp st) (current_timestamp st) limit).
  { unfold chunk_query, next_timestamp_of. rewrite std_min_spec, Z.add_0_r.
    rewrite u64_id by (unfold is_u64; lia). f_equal. lia. }
  eexists. split.
  - apply import_turn_empty; [lia |]. rewrite Hq. unfold run_query. simpl.
    apply executeQuery_empty_window. lia.
  - rewrite Hq. simpl. repeat split.
Qed.

Lemma import_loop_stalls (tbl : table) (upper limit : Z) (fuel : nat) (st : importer) :
  0 <= current_timestamp st < upper -> upper <= two64 ->
  exists st',
    import_loop fuel tbl 0 upper limit st = Running st' /\
    current_timestamp st' = current_timestamp st /\
    out_metric st' = out_metric st /\ row st' = row st /\
    length (issued st') = (length (issued st) + fuel)%nat.
Proof.
  revert st. induction fuel as [|fuel IH]; intros st Hc Hu; simpl.
  - exists st. repeat split. lia.
  - destruct (import_turn_stalls tbl upper limit st Hc Hu) as (s & -> & E1 & E2 & E3 & E4).
    destruct (IH s) as (st' & -> & F1 & F2 & F3 & F4); [lia | assumption |].
    exists st'. split; [reflexivity |].
    rewrite F1, F2, F3, F4, E1, E2, E3, E4, length_app. simpl. repeat split. lia.
Qed.

(** With a positive chunk width that does not wrap, every turn moves
    [current_timestamp] forward. *)
Lemma import_turn_progress (tbl : table) (delta upper limit : Z) (st st' : importer) :
  0 < delta -> upper + delta <= two64 -> 0 <= current_timestamp st ->
  import_turn tbl delta upper limit st = Continue st' ->
  current_timestamp st < current_timestamp st'.
Proof.
  intros Hd Hu Hc E. apply import_turn_continue in E.
  destruct E as [Hlt [[_ ->] | (res & last & Eq & ->)]]; simpl.
  - unfold next_timestamp_of. rewrite std_min_spec.
    rewrite u64_id by (unfold is_u64; lia). lia.
  - assert (Hlast : In last (run_query tbl (chunk_query delta upper limit st)))
      by (rewrite Eq; apply in_or_app; right; now left).
    apply run_query_In in Hlast. simpl in Hlast. destruct Hlast as [_ Hr].
    pose proof (next_timestamp_le_upper delta upper (current_timestamp st)).
    rewrite u64_id by (unfold is_u64; lia). lia.
Qed.

(** Hence the loop finishes within [upper - current_timestamp] turns (and
    one more to notice). *)
Lemma import_loop_terminates (tbl : table) (delta upper limit : Z) :
  0 < delta -> upper + delta <= two64 ->
  forall (n : nat) (st : importer),
    0 <= current_timestamp st ->
    upper - current_timestamp st <= Z.of_nat n ->
    exists st', import_loop (S n) tbl delta upper limit st = Finished st'.
Proof.
  intros Hd Hu. induction n as [|n IH]; intros st Hc Hn.
  - exists st. simpl. rewrite import_turn_done by lia. reflexivity.
  - destruct (Z.le_gt_cases upper (current_timestamp st)) as [Hdone | Hmore].
    + exists st. simpl. rewrite import_turn_done by lia. reflexivity.
    + change (import_loop (S (S n)) tbl delta upper limit st)
        with (match import_turn tbl delta upper limit st with
              | Completed st' => Finished st'
              | Continue st' => import_loop (S n) tbl delta upper limit st'
              | Stuck => Aborted UndefinedBehaviour
              end).
      destruct (import_turn tbl delta upper limit st) as [s | s |] eqn:E.
      * now exists s.
      * pose proof (import_turn_progress _ _ _ _ _ _ Hd Hu Hc E).
        apply IH; lia.
      * now apply import_turn_total in E.
Qed.

(** ** Binary64 arithmetic on 64-bit quantities *)

Lemma digits2_pos_size (p : positive) : digits2_pos p = Pos.size p.
Proof. induction p; simpl; congruence. Qed.

Lemma Zdigits2_nonneg (m : Z) : 0 <= Zdigits2 m.
Proof. destruct m; simpl; lia. Qed.

Lemma Zdigits2_gt (m : Z) : 0 <= m -> m < 2 ^ Zdigits2 m.
Proof.
  destruct m as [|p|p]; intros H; [simpl; lia | | lia].
  unfold Zdigits2. rewrite digits2_pos_size, <- Pos2Z.inj_pow.
  apply Pos2Z.pos_lt_pos, Pos.size_gt.
Qed.

Lemma Zdigits2_le_pos (p : positive) : 2 ^ (Zdigits2 (Zpos p) - 1) <= Zpos p.
Proof.
  unfold Zdigits2. rewrite digits2_pos_size.
  pose proof (Pos.size_le p) as H. apply Pos2Z.pos_le_pos in H.
  rewrite Pos2Z.inj_pow in H.
  replace (Zpos (Pos.size p)) with (Z.succ (Zpos (Pos.size p) - 1)) in H by lia.
  rewrite Z.pow_succ_r in H by lia. change (Zpos p~0) with (2 * Zpos p) in H. lia.
Qed.

Lemma Zdigits2_bound (m k : Z) : 0 <= m -> 0 <= k -> m < 2 ^ k -> Zdigits2 m <= k.
Proof.
  intros Hm Hk Hlt. destruct m as [|p|p]; [simpl; lia | | lia].
  destruct (Z.le_gt_cases (Zdigits2 (Zpos p)) k) as [H | H]; [assumption |].
  pose proof (Zdigits2_le_pos p) as Hp.
  assert (2 ^ k <= 2 ^ (Zdigits2 (Zpos p) - 1)) by (apply Z.pow_le_mono_r; lia).
  lia.
Qed.

Lemma shr_1_m (mrs : shr_record) :
  0 <= shr_m mrs -> shr_m (shr_1 mrs) = Z.div2 (shr_m mrs).
Proof.
  destruct mrs as [m r s]. simpl. intros H.
  destruct m as [|[p|p|]|p]; try reflexivity; lia.
Qed.

Lemma div_pow2_div_pow2 (m a b : Z) :
  0 <= a -> 0 <= b -> m / 2 ^ a / 2 ^ b = m / 2 ^ (a + b).
Proof.
  intros Ha Hb. rewrite Z.pow_add_r by assumption.
  assert (0 < 2 ^ a) by (apply Z.pow_pos_nonneg; lia).
  assert (0 < 2 ^ b) by (apply Z.pow_pos_nonneg; lia).
  apply Z.div_div; lia.
Qed.

Lemma div_pow2_nonneg (m a : Z) : 0 <= m -> 0 <= a -> 0 <= m / 2 ^ a.
Proof. intros Hm Ha. apply Z.div_pos; [assumption | apply Z.pow_pos_nonneg; lia]. Qed.

Lemma iter_pos_shr_m (n : positive) (mrs : shr_record) :
  0 <= shr_m mrs ->
  shr_m (iter_pos shr_1 n mrs) = shr_m mrs / 2 ^ Zpos n.
Proof.
  revert mrs. induction n as [n IH | n IH |]; intros mrs H; cbn [iter_pos].
  - assert (H1 : shr_m (shr_1 mrs) = shr_m mrs / 2 ^ 1)
      by (rewrite shr_1_m by assumption; apply Z.div2_div).
    assert (H2 : 0 <= shr_m (shr_1 mrs))
      by (rewrite H1; apply div_pow2_nonneg; lia).
    assert (H3 : 0 <= shr_m (iter_pos shr_1 n (shr_1 mrs)))
      by (rewrite IH by assumption; apply div_pow2_nonneg; lia).
    rewrite IH, IH, H1 by assumption.
    rewrite !div_pow2_div_pow2 by lia. f_equal. f_equal. lia.
  - assert (H3 : 0 <= shr_m (iter_pos shr_1 n mrs))
      by (rewrite IH by assumption; apply div_pow2_nonneg; lia).
    rewrite IH, IH by assumption.
    rewrite div_pow2_div_pow2 by lia. f_equal. f_equal. lia.
  - rewrite shr_1_m by assumption. apply Z.div2_div.
Qed.

Lemma fexp_double (e : Z) : fexp 53 1024 e = Z.max (e - 53) (-1074).
Proof. reflexivity. Qed.

Lemma shr_record_of_loc_m (m : Z) (l : location) : shr_m (shr_record_of_loc m l) = m.
Proof. destruct l as [|[ | | ]]; reflexivity. Qed.

Lemma shr_fexp_spec (m e : Z) (l : location) :
  0 <= m ->
  snd (shr_fexp 53 1024 m e l) = Z.max e (fexp 53 1024 (Zdigits2 m + e)) /\
  shr_m (fst (shr_fexp 53 1024 m e l)) = m / 2 ^ (snd (shr_fexp 53 1024 m e l) - e).
Proof.
  intros Hm. unfold shr_fexp, shr.
  destruct (fexp 53 1024 (Zdigits2 m + e) - e) as [|p|p] eqn:E; cbn [fst snd].
  - replace (Z.max e (fexp 53 1024 (Zdigits2 m + e))) with e by lia.
    rewrite shr_record_of_loc_m, Z.sub_diag. simpl. now rewrite Z.div_1_r.
  - replace (Z.max e (fexp 53 1024 (Zdigits2 m + e))) with (e + Zpos p) by lia.
    split; [reflexivity |].
    rewrite iter_pos_shr_m by (rewrite shr_record_of_loc_m; assumption).
    rewrite shr_record_of_loc_m. f_equal. f_equal. lia.
  - replace (Z.max e (fexp 53 1024 (Zdigits2 m + e))) with e by lia.
    rewrite shr_record_of_loc_m, Z.sub_diag. simpl. now rewrite Z.div_1_r.
Qed.

Lemma round_nearest_even_bounds (m : Z) (l : location) :
  m <= round_nearest_even m l <= m + 1.
Proof.
  unfold round_nearest_even. destruct l as [|[ | | ]]; try lia.
  destruct (Z.even m); lia.
Qed.

(** Dividing a number of [d] digits by [2^k] with [d - 53 <= k] leaves
    fewer than 54 digits. *)
Lemma div_pow2_small (m k : Z) :
  0 <= m -> 0 <= k -> Zdigits2 m - 53 <= k -> m / 2 ^ k < 2 ^ 53.
Proof.
  intros Hm Hk Hd. pose proof (Zdigits2_gt m Hm) as Hlt.
  pose proof (Zdigits2_nonneg m) as Hn.
  assert (Hp : 0 < 2 ^ k) by (apply Z.pow_pos_nonneg; lia).
  apply Z.div_lt_upper_bound; [assumption |].
  rewrite <- Z.pow_add_r by lia.
  assert (2 ^ Zdigits2 m <= 2 ^ (k + 53)) by (apply Z.pow_le_mono_r; lia).
  lia.
Qed.

Lemma div_pow2_positive (m k : Z) :
  0 < m -> 0 <= k -> k <= Zdigits2 m - 1 -> 1 <= m / 2 ^ k.
Proof.
  intros Hm Hk Hd. destruct m as [|p|p]; try lia.
  pose proof (Zdigits2_le_pos p) as Hge.
  assert (Hp : 0 < 2 ^ k) by (apply Z.pow_pos_nonneg; lia).
  apply Z.div_le_lower_bound; [assumption |].
  assert (2 ^ k <= 2 ^ (Zdigits2 (Zpos p) - 1)) by (apply Z.pow_le_mono_r; lia).
  lia.
Qed.

Lemma div_pow2_le (m k : Z) : 0 <= m -> 0 <= k -> m / 2 ^ k <= m.
Proof.
  intros Hm Hk. assert (Hp : 0 < 2 ^ k) by (apply Z.pow_pos_nonneg; lia).
  apply Z.div_le_upper_bound; [assumption |]. nia.
Qed.

Lemma binary_round_aux_finite (s : bool) (m e : Z) (l : location) (B : Z) :
  0 <= m -> e <= B -> Zdigits2 m + e <= B + 53 -> -1074 <= B -> B + 1 <= 971 ->
  finite_within s e (B + 1) (binary_round_aux 53 1024 s m e l) /\
  (0 < m -> -1074 <= e -> binary_round_aux 53 1024 s m e l <> S754_zero s).
Proof.
  intros Hm He Hmag HB Hmax. unfold binary_round_aux.
  destruct (shr_fexp_spec m e l Hm) as [E1 M1].
  destruct (shr_fexp 53 1024 m e l) as [mrs1 e1]. cbn [fst snd] in E1, M1.
  rewrite fexp_double in E1.
  pose proof (Zdigits2_nonneg m) as Hd.
  assert (Hk1 : 0 <= e1 - e) by lia.
  assert (Hm1 : 0 <= shr_m mrs1 < 2 ^ 53).
  { rewrite M1. split; [apply div_pow2_nonneg; lia | apply div_pow2_small; lia]. }
  pose proof (round_nearest_even_bounds (shr_m mrs1) (loc_of_shr_record mrs1)) as Hr.
  set (m2 := round_nearest_even (shr_m mrs1) (loc_of_shr_record mrs1)) in *.
  assert (Hm2 : 0 <= m2) by lia.
  destruct (shr_fexp_spec m2 e1 loc_Exact Hm2) as [E2 M2].
  destruct (shr_fexp 53 1024 m2 e1 loc_Exact) as [mrs2 e2]. cbn [fst snd] in E2, M2.
  rewrite fexp_double in E2.
  assert (Hd2 : Zdigits2 m2 <= 54).
  { apply Zdigits2_bound; lia. }
  pose proof (Zdigits2_nonneg m2) as Hd2n.
  assert (Hk2 : 0 <= e2 - e1) by lia.
  assert (Hm3 : 0 <= shr_m mrs2 <= m2).
  { rewrite M2. split; [apply div_pow2_nonneg; lia | apply div_pow2_le; lia]. }
  split.
  - destruct (shr_m mrs2) as [|p|p] eqn:E3.
    + now left.
    + destruct (Z.leb_spec e2 (1024 - 53)) as [Hle | Hgt]; [| lia].
      right. exists p, e2. split; [reflexivity |]. split; [lia |].
      change (2 ^ 54) with (2 * 2 ^ 53). lia.
    + lia.
  - intros Hpos Hemin.
    assert (H1 : 1 <= shr_m mrs1).
    { rewrite M1. apply div_pow2_positive; try lia.
      assert (1 <= Zdigits2 m) by (destruct m; simpl; lia). lia. }
    assert (H3 : 1 <= shr_m mrs2).
    { rewrite M2. apply div_pow2_positive; try lia.
      assert (1 <= Zdigits2 m2) by (destruct m2; simpl; lia). lia. }
    destruct (shr_m mrs2) as [|p|p]; try lia.
    destruct (e2 <=? 1024 - 53); discriminate.
Qed.

Lemma finite_within_upto (s : bool) (lo hi : Z) (x : spec_float) :
  finite_within s lo hi x -> finite_upto s hi x.
Proof.
  intros [-> | (m & e & -> & He & Hm)]; [now left |].
  right. exists m, e. repeat split; [lia | assumption].
Qed.

Lemma iter_xO_pow2 (d p : positive) : Zpos (Pos.iter xO p d) = Zpos p * 2 ^ Zpos d.
Proof.
  induction d as [|d IH] using Pos.peano_ind.
  - simpl. lia.
  - rewrite Pos.iter_succ, Pos2Z.inj_xO, IH, Pos2Z.inj_succ, Z.pow_succ_r by lia. lia.
Qed.

Lemma shl_align_spec (mx : positive) (ex ex' : Z) :
  snd (shl_align mx ex ex') = Z.min ex ex' /\
  Zpos (fst (shl_align mx ex ex')) = Zpos mx * 2 ^ (ex - snd (shl_align mx ex ex')).
Proof.
  unfold shl_align. destruct (ex' - ex) as [|d|d] eqn:E; cbn [fst snd].
  - split; [lia |]. rewrite Z.sub_diag. simpl. lia.
  - split; [lia |]. rewrite Z.sub_diag. simpl. lia.
  - split; [lia |]. rewrite iter_xO_pow2. f_equal. f_equal. lia.
Qed.

Lemma mul_pow2_digits (m k d : Z) :
  0 <= m -> 0 <= k -> 0 <= d -> m < 2 ^ d -> Zdigits2 (m * 2 ^ k) <= d + k.
Proof.
  intros Hm Hk Hd Hlt. assert (Hp : 0 < 2 ^ k) by (apply Z.pow_pos_nonneg; lia).
  apply Zdigits2_bound; [nia | lia |].
  rewrite Z.pow_add_r by lia. nia.
Qed.

(** A non-zero [uint64_t] converts to a finite, positive, non-zero double. *)
Lemma of_Z_u64_finite (n : Z) :
  0 < n < 2 ^ 64 ->
  exists m e, binary_normalize 53 1024 n 0 false = S754_finite false m e /\
              -52 <= e <= 12 /\ Zpos m < 2 ^ 54.
Proof.
  intros Hn. destruct n as [|p|p]; try lia. cbn [binary_normalize].
  unfold binary_round.
  destruct (shl_align_spec p 0 (fexp 53 1024 (Zpos (digits2_pos p) + 0))) as [Ez Mz].
  destruct (shl_align p 0 (fexp 53 1024 (Zpos (digits2_pos p) + 0))) as [mz ez].
  cbn [fst snd] in Ez, Mz. rewrite fexp_double in Ez.
  change (Zpos (digits2_pos p)) with (Zdigits2 (Zpos p)) in Ez.
  assert (Hd : 1 <= Zdigits2 (Zpos p) <= 64).
  { split; [simpl; lia | apply Zdigits2_bound; lia]. }
  assert (Hmag : Zdigits2 (Zpos mz) + ez <= 64).
  { rewrite Mz.
    pose proof (mul_pow2_digits (Zpos p) (0 - ez) (Zdigits2 (Zpos p))) as H.
    pose proof (Zdigits2_gt (Zpos p)). lia. }
  destruct (binary_round_aux_finite false (Zpos mz) ez loc_Exact 11) as [Hf Hnz]; try lia.
  destruct Hf as [Hzero | (m & e & E & He & Hm)].
  - exfalso. apply Hnz; [lia | lia | assumption].
  - exists m, e. split; [assumption |]. split; [lia | assumption].
Qed.

Lemma of_Z_u64_upto (n : Z) :
  0 <= n < 2 ^ 64 -> finite_upto false 12 (binary_normalize 53 1024 n 0 false).
Proof.
  intros Hn. destruct (Z.eq_dec n 0) as [-> | Hnz]; [now left |].
  destruct (of_Z_u64_finite n) as (m & e & E & He & Hm); [lia |].
  right. exists m, e. repeat split; [assumption | lia | assumption].
Qed.

Lemma SFdiv_core_binary_spec (mx my : positive) (ex ey : Z) :
  exists q ez lz,
    SFdiv_core_binary 53 1024 (Zpos mx) ex (Zpos my) ey = (q, ez, lz) /\
    0 <= q /\ ez <= ex - ey /\ q <= Zpos mx * 2 ^ (ex - ey - ez).
Proof.
  unfold SFdiv_core_binary.
  set (e' := Z.min (fexp 53 1024 (Zdigits2 (Zpos mx) + ex - (Zdigits2 (Zpos my) + ey)))
                   (ex - ey)).
  assert (He' : e' <= ex - ey) by (unfold e'; lia).
  set (m' := match ex - ey - e' with
             | 0 => Zpos mx
             | Zpos _ => Z.shiftl (Zpos mx) (ex - ey - e')
             | Zneg _ => 0
             end).
  assert (Hm' : m' = Zpos mx * 2 ^ (ex - ey - e')).
  { unfold m'. destruct (ex - ey - e') as [|s|s] eqn:Es; try lia.
    apply Z.shiftl_mul_pow2. lia. }
  assert (Hp : 0 < 2 ^ (ex - ey - e')) by (apply Z.pow_pos_nonneg; lia).
  pose proof (Z_div_mod m' (Zpos my) eq_refl) as Hdm.
  destruct (Z.div_eucl m' (Zpos my)) as [q r].
  exists q, e', (new_location (Zpos my) r).
  split; [reflexivity |]. repeat split; [nia | assumption | nia].
Qed.

Lemma SFdiv_finite (x y : spec_float) (Bx L : Z) (my : positive) (ey : Z) :
  finite_upto false Bx x ->
  y = S754_finite false my ey -> - L <= ey ->
  -1075 <= Bx + L -> Bx + L + 2 <= 971 ->
  finite_upto false (Bx + L + 2) (SFdiv 53 1024 x y).
Proof.
  intros [-> | (mx & ex & -> & Hex & Hmx)] -> Hey Hlo Hhi; [now left |].
  cbn [SFdiv].
  destruct (SFdiv_core_binary_spec mx my ex ey) as (q & ez & lz & -> & Hq & Hez & Hqle).
  destruct (binary_round_aux_finite (xorb false false) q ez lz (Bx + L + 1)) as [Hf _];
    try lia.
  - assert (H : Zdigits2 q <= 54 + (ex - ey - ez)).
    { apply Zdigits2_bound; [assumption | lia |].
      rewrite Z.pow_add_r by lia.
      assert (0 < 2 ^ (ex - ey - ez)) by (apply Z.pow_pos_nonneg; lia). nia. }
    lia.
  - apply finite_within_upto in Hf.
    replace (Bx + L + 2) with (Bx + L + 1 + 1) by lia. exact Hf.
Qed.

Lemma SFmul_finite (x y : spec_float) (Bx By : Z) :
  finite_upto false Bx x -> finite_upto false By y ->
  -1129 <= Bx + By -> Bx + By + 56 <= 971 ->
  finite_upto false (Bx + By + 56) (SFmul 53 1024 x y).
Proof.
  intros [-> | (mx & ex & -> & Hex & Hmx)] [-> | (my & ey & -> & Hey & Hmy)] Hlo Hhi.
  1-3: left; reflexivity.
  cbn [SFmul].
  assert (H : Zdigits2 (Zpos (mx * my)) <= 54 + 54).
  { apply Zdigits2_bound; [apply Pos2Z.is_nonneg | apply Z.add_nonneg_nonneg; discriminate |].
    rewrite Pos2Z.inj_mul.
    rewrite Z.pow_add_r by discriminate.
    apply Z.mul_lt_mono_nonneg; try assumption; apply Pos2Z.is_nonneg. }
  assert (Hp : 0 <= Zpos (mx * my)) by apply Pos2Z.is_nonneg.
  clear Hmx Hmy. revert H Hp. generalize (Zpos (mx * my)). intros m H Hp.
  destruct (binary_round_aux_finite (xorb false false) m (ex + ey)
              loc_Exact (Bx + By + 55)) as [Hf _]; try lia.
  apply finite_within_upto in Hf.
  replace (Bx + By + 56) with (Bx + By + 55 + 1) by lia. exact Hf.
Qed.

Lemma of_Z_two : Double.of_Z 2 = S754_finite false 4503599627370496 (-51).
Proof. reflexivity. Qed.

(** With at least one row counted, the chunk width is a finite,
    non-negative double. *)
Lemma chunk_timedelta_double_finite (sts : stats) (limit : Z) :
  is_u64 (count sts) -> 1 <= count sts -> is_u64 limit ->
  finite_upto false 187 (chunk_timedelta_double sts limit).
Proof.
  intros Hc Hpos Hl. unfold chunk_timedelta_double, sampling_interval, Double.div, Double.mul.
  destruct (of_Z_u64_finite (count sts)) as (my & ey & Ey & Hey & _);
    [unfold is_u64, two64 in Hc; lia |].
  pose proof (u64_range (max_timestamp sts - min_timestamp sts)) as Hr.
  pose proof (of_Z_u64_upto (u64 (max_timestamp sts - min_timestamp sts)) Hr) as Hx.
  pose proof (of_Z_u64_upto limit Hl) as Hlim.
  pose proof (SFdiv_finite _ _ 12 52 my ey Hx Ey) as Hsi.
  pose proof (SFmul_finite _ _ (12 + 52 + 2) 12 (Hsi ltac:(lia) ltac:(lia) ltac:(lia)) Hlim
                ltac:(lia) ltac:(lia)) as Hprod.
  exact (SFdiv_finite _ _ (12 + 52 + 2 + 12 + 56) 51 _ _ Hprod of_Z_two
           ltac:(lia) ltac:(lia) ltac:(lia)).
Qed.

Lemma trunc_finite_upto (hi : Z) (x : spec_float) :
  finite_upto false hi x -> exists z, Double.trunc x = Some z /\ 0 <= z.
Proof.
  intros [-> | (m & e & -> & _ & _)]; [exists 0; split; [reflexivity | lia] |].
  cbn [Double.trunc]. eexists. split; [reflexivity |].
  destruct e; [apply Z.shiftl_nonneg | apply Z.shiftl_nonneg | apply Z.shiftr_nonneg]; lia.
Qed.

(** Dividing by a zero count gives NaN or an infinity, and so does
    everything computed from the quotient. *)
Lemma chunk_timedelta_zero_count (sts : stats) (limit : Z) :
  count sts = 0 -> chunk_timedelta sts limit = None.
Proof.
  intros Hc. unfold chunk_timedelta, chunk_timedelta_double, sampling_interval.
  rewrite Hc, of_Z_two. change (Double.of_Z 0) with (S754_zero false).
  destruct (Double.of_Z (u64 (max_timestamp sts - min_timestamp sts))) as [s | s | | s m e];
    destruct (Double.of_Z limit) as [s' | s' | | s' m' e']; reflexivity.
Qed.

(** * The claims *)

(** ** Monotonicity of the inserted samples *)



(** Scenario C: a batch delivered out of order loses exactly the row that
    goes back in time. *)
Example scenario_C_filtered :
  map time (monotone_filter TimePoint_default scenario_C)
  = [100000000; 300000000; 400000000] /\
  monotone_rejects TimePoint_default scenario_C = [200000000].
Proof. split; reflexivity. Qed.

(** ** Advancing past the last returned row *)

(** C2. When the chunk query of a turn returns at least one row, the turn
    goes round again with [current_timestamp] equal to the raw timestamp of
    the last returned row plus one, whatever the monotonicity filter did to
    that row; this is at most the window edge [next_timestamp], and every
    row of the table whose timestamp lies between the last returned row
    and the upper bound still satisfies the WHERE clause of the remaining
    range, so none of them is skipped. *)
Theorem import_turn_advances_past_last_row
    (tbl : table) (delta upper limit : Z) (st : importer)
    (res : list source_row) (last : source_row) :
  0 <= current_timestamp st < upper -> upper < two64 ->
  run_query tbl (chunk_query delta upper limit st) = res ++ [last] ->
  exists st',
    import_turn tbl delta upper limit st = Continue st' /\
    current_timestamp st' = timestamp last + 1 /\
    current_timestamp st' <= next_timestamp_of delta upper (current_timestamp st) /\
    fetched st' = fetched st ++ res ++ [last] /\
    forall r, In r tbl -> timestamp last < timestamp r < upper ->
              where_clause (current_timestamp st') upper r = true.
Proof.
  intros Hcur Hup E.
  assert (Hlast : In last (run_query tbl (chunk_query delta upper limit st)))
    by (rewrite E; apply in_or_app; right; now left).
  apply run_query_In in Hlast. simpl in Hlast. destruct Hlast as [_ Hrange].
  pose proof (next_timestamp_le_upper delta upper (current_timestamp st)) as Hnext.
  assert (Hu : u64 (timestamp last + 1) = timestamp last + 1)
    by (apply u64_id; unfold is_u64; lia).
  eexists. split; [apply import_turn_rows; [lia | exact E] |].
  simpl. rewrite Hu. repeat split; try lia.
  - destruct (import_rows_frame (res ++ [last])
                (record_query st (chunk_query delta upper limit st))) as (_ & _ & _ & F).
    exact F.
  - intros r _ Hr. unfold where_clause. apply andb_true_iff. lia.
Qed.

(** A chunk cut off by the row cap: the window is [100, 280) but only two
    rows come back, and the next chunk starts at 102, not at 280. *)
Lemma import_turn_advances_past_last_row_witness :
  exists st',
    import_turn bursty 180 1001 2 (init_importer 100) = Continue st' /\
    current_timestamp st' = 101 + 1 /\
    current_timestamp st' <= next_timestamp_of 180 1001 100 /\
    fetched st' = [] ++ rows_at [100] ++ [mk_row 101 zero] /\
    forall r, In r bursty -> 101 < timestamp r < 1001 ->
              where_clause (current_timestamp st') 1001 r = true.
Proof.
  apply (import_turn_advances_past_last_row
           bursty 180 1001 2 (init_importer 100) (rows_at [100]) (mk_row 101 zero)).
  - simpl. lia.
  - rewrite two64_eq. lia.
  - reflexivity.
Defined.

(** ** Clamping of the requested bounds *)

(** C3. For every requested bound pair and every statistics record the
    bounds [import] works with are
    [lowerBound = max(requestedMin, stats.minTimestamp)] and
    [upperBound = requestedMax != 0 ? min(requestedMax, stats.maxTimestamp + 1)
                                    : stats.maxTimestamp + 1],
    the sum being taken in [uint64_t]; when the requested range is at least
    as wide as the source's extent they are the source's own
    [[minTimestamp, maxTimestamp + 1)]. *)
Theorem import_bounds_clamped (requested_min requested_max : Z) (st : stats) :
  lower_bound requested_min st = spec_lower_bound requested_min st /\
  upper_bound requested_max st = spec_upper_bound requested_max st /\
  (0 <= max_timestamp st < two64 - 1 ->
   requested_min <= min_timestamp st ->
   requested_max = 0 \/ max_timestamp st + 1 <= requested_max ->
   lower_bound requested_min st = min_timestamp st /\
   upper_bound requested_max st = max_timestamp st + 1).
Proof.
  unfold lower_bound, upper_bound, spec_lower_bound, spec_upper_bound.
  rewrite std_max_spec, std_min_spec. split; [reflexivity | split].
  - now destruct (requested_max =? 0).
  - intros Hmax Hmin Hwide.
    rewrite (u64_id (max_timestamp st + 1)) by (unfold is_u64; lia).
    split; [lia |].
    destruct (Z.eqb_spec requested_max 0); lia.
Qed.

Lemma import_bounds_clamped_witness :
  lower_bound 0 (mk_stats 100 500 5) = 100 /\
  upper_bound 1000 (mk_stats 100 500 5) = 500 + 1.
Proof.
  apply (import_bounds_clamped 0 1000 (mk_stats 100 500 5)).
  - unfold two64. simpl. lia.
  - simpl. lia.
  - right. simpl. lia.
Defined.

(** ** Termination *)

(** C4. The run on a source holding the single row 100 (statistics
    [{100, 100, 1}], hence a sampling interval and a chunk width of 0)
    with the default row cap: however many turns the loop is given it is
    still running, [current_timestamp] is still 100, below the upper bound
    101, and nothing has been imported. *)
Theorem import_single_row_never_finishes (fuel : nat) :
  stats_query (Some single_row) = Returned (mk_stats 100 100 1) /\
  chunk_timedelta (mk_stats 100 100 1) default_chunk_size = Some 0 /\
  exists st,
    import fuel (Some single_row) 0 0 default_chunk_size = Running st /\
    current_timestamp st = 100 /\ 100 < upper_bound 0 (mk_stats 100 100 1) /\
    out_metric st = [] /\ length (issued st) = fuel.
Proof.
  split; [reflexivity | split; [reflexivity |]].
  change (import fuel (Some single_row) 0 0 default_chunk_size)
    with (import_loop fuel single_row 0 101 default_chunk_size (init_importer 100)).
  destruct (import_loop_stalls single_row 101 default_chunk_size fuel (init_importer 100))
    as (st & E & H1 & H2 & _ & H3).
  - simpl. lia.
  - rewrite two64_eq. lia.
  - exists st. split; [exact E |]. simpl in *. repeat split; assumption.
Qed.

(** ** The reported count *)

(** C5, as stated, fails on scenario B with the default row cap: three
    samples are inserted but the count reported is four. *)
Lemma reported_count_includes_rejected_rows :
  exists st,
    import 20 (Some scenario_B) 0 0 default_chunk_size = Finished st /\
    length (out_metric st) = 3%nat /\
    row st = 4 /\
    row st <> Z.of_nat (length (out_metric st)).
Proof.
  exists scenario_B_final. split; [vm_compute; reflexivity |].
  split; [reflexivity | split; [reflexivity |]]. vm_compute. discriminate.
Qed.

(** C5, amended. When [import] returns, the count it reports is the number
    of rows its chunk queries delivered (modulo 2^64), which is the number
    of inserted samples plus the number of rows the monotonicity filter
    rejected; on the source [{100,200,200,300}] with the default row cap
    exactly the three samples 100, 200, 300 are inserted, one row is
    rejected and the reported count is 4. *)
Theorem reported_count_is_rows_fetched :
  (forall fuel db rmin rmax limit st,
      import fuel db rmin rmax limit = Finished st ->
      row st = u64 (Z.of_nat (length (fetched st))) /\
      length (fetched st) = (length (out_metric st) + length (skipped st))%nat /\
      (Z.of_nat (length (fetched st)) < two64 ->
       row st = Z.of_nat (length (out_metric st)) + Z.of_nat (length (skipped st)))) /\
  exists st,
    import 20 (Some scenario_B) 0 0 default_chunk_size = Finished st /\
    map time (out_metric st) = [100000000; 200000000; 300000000] /\
    skipped st = [200000000] /\
    row st = 4.
Proof.
  split.
  - intros fuel db rmin rmax limit st H.
    assert (Hc : consistent st) by (eapply import_consistent; left; exact H).
    destruct Hc as [Ho Hs _ Hr].
    assert (Hlen : length (fetched st) = (length (out_metric st) + length (skipped st))%nat).
    { rewrite Ho, Hs. symmetry. apply monotone_split_length. }
    split; [exact Hr | split; [exact Hlen |]].
    intros Hsmall. rewrite Hr, u64_id by (unfold is_u64; lia). lia.
  - exists scenario_B_final. split; [vm_compute; reflexivity |]. repeat split.
Qed.

Lemma reported_count_is_rows_fetched_witness :
  row scenario_B_final = u64 (Z.of_nat (length (fetched scenario_B_final))) /\
  length (fetched scenario_B_final)
  = (length (out_metric scenario_B_final) + length (skipped scenario_B_final))%nat.
Proof.
  destruct reported_count_is_rows_fetched as [H _].
  destruct (H 20%nat (Some scenario_B) 0 0 default_chunk_size scenario_B_final) as (H1 & H2 & _).
  - vm_compute. reflexivity.
  - split; assumption.
Defined.

(** ** The range probe *)

(** C6. On a connection whose statements throw, the probe fails; but on
    every table it returns statistics, and for the empty table it returns
    [{0, 0, 0}] (the aggregate row is (0, NULL, NULL)), with which [import]
    goes on to divide 0.0 by 0 and to convert the resulting NaN to
    [uint64_t]. *)
Theorem stats_query_accepts_empty_table :
  stats_query None = Failed SQLException /\
  (forall tbl, exists sts, stats_query (Some tbl) = Returned sts) /\
  stats_query (Some []) = Returned (mk_stats 0 0 0) /\
  sampling_interval (mk_stats 0 0 0) = S754_nan /\
  forall fuel rmin rmax limit,
    import fuel (Some []) rmin rmax limit = Aborted UndefinedBehaviour.
Proof.
  split; [reflexivity | split; [| split; [reflexivity | split; [reflexivity |]]]].
  - intros tbl. eexists. apply stats_query_table.
  - intros fuel rmin rmax limit. unfold import. simpl.
    unfold chunk_timedelta, chunk_timedelta_double.
    change (sampling_interval (mk_stats 0 0 0)) with S754_nan.
    reflexivity.
Qed.

(** ** The initial cursor *)

(** C7, as stated, fails: the cursor starts at the epoch, not at the least
    time point, and a first row at 0 ms does not pass the comparison.  On
    the source [{0, 10}] the row at 0 is dropped. *)
Lemma first_row_at_epoch_is_rejected :
  previous_time (init_importer 0) <> - two63 /\
  out_metric (import_row (init_importer 0) (mk_row 0 zero)) = [] /\
  exists st,
    import 9 (Some (rows_at [0; 10])) 0 0 2 = Finished st /\
    map time (out_metric st) = [10000000] /\
    skipped st = [0].
Proof.
  split; [vm_compute; discriminate | split; [reflexivity |]].
  eexists. split; [vm_compute; reflexivity |]. split; reflexivity.
Qed.

(** C7, amended. The monotonicity cursor is initialised to the epoch (time
    point zero), so the first returned row passes the strictly-greater
    comparison exactly when its converted timestamp is strictly positive:
    every first row with a raw timestamp from 1 ms to 9223372036854 ms is
    inserted, a first row at 0 ms is rejected. *)
Theorem first_row_accepted_iff_after_epoch (lower : Z) (r : source_row) :
  previous_time (init_importer lower) = 0 /\
  (0 < hta_time_of (timestamp r) <->
   out_metric (import_row (init_importer lower) r)
   = [mk_sample (hta_time_of (timestamp r)) (value r)]) /\
  (1 <= timestamp r <= 9223372036854 ->
   out_metric (import_row (init_importer lower) r)
   = [mk_sample (timestamp r * 1000000) (value r)]) /\
  (timestamp r = 0 ->
   out_metric (import_row (init_importer lower) r) = [] /\
   skipped (import_row (init_importer lower) r) = [0]).
Proof.
  split; [reflexivity |].
  assert (Hacc : 0 < hta_time_of (timestamp r) ->
                 out_metric (import_row (init_importer lower) r)
                 = [mk_sample (hta_time_of (timestamp r)) (value r)]).
  { intros H. now rewrite import_row_accept. }
  split; [split; [exact Hacc |] | split].
  - intros E. destruct (Z.lt_ge_cases 0 (hta_time_of (timestamp r))) as [H | H]; [assumption |].
    rewrite import_row_reject in E by exact H. discriminate.
  - intros H. rewrite <- hta_time_of_exact by lia. apply Hacc.
    rewrite hta_time_of_exact by lia. lia.
  - intros H. rewrite import_row_reject; rewrite H; [split; reflexivity |].
    vm_compute. discriminate.
Qed.

Lemma first_row_accepted_iff_after_epoch_witness :
  out_metric (import_row (init_importer 100) (mk_row 100 zero))
  = [mk_sample (100 * 1000000) zero].
Proof.
  apply (first_row_accepted_iff_after_epoch 100 (mk_row 100 zero)).
  simpl. lia.
Defined.

(** ** A requested range outside the source's extent *)

(** C8, as stated, fails: the chunk width is computed before the loop is
    entered.  On a source with one stray microsecond timestamp and the
    default row cap that conversion is undefined, and the run requested
    from [maxTimestamp + 1] on does not complete with count 0. *)
Lemma import_outside_range_can_abort :
  stats_query (Some stray_microseconds) = Returned (mk_stats 0 1700000000000000 2) /\
  1700000000000001 = max_timestamp (mk_stats 0 1700000000000000 2) + 1 /\
  import 1 (Some stray_microseconds) 1700000000000001 0 default_chunk_size
  = Aborted UndefinedBehaviour.
Proof. repeat split; vm_compute; reflexivity. Qed.

(** C8, amended. If the requested range lies entirely outside the extent
    of the source (the requested minimum is above the source's maximum, in
    particular equal to [maxTimestamp + 1], or the requested maximum is set
    and at most the source's minimum) and the chunk width computed before
    the loop is well-defined, [import] returns at the first loop test: no
    chunk query is issued, nothing is fetched or inserted, and the reported
    count is 0. *)
Theorem import_outside_source_range
    (fuel : nat) (tbl : table) (rmin rmax limit : Z) (sts : stats) (delta : Z) :
  well_formed tbl -> is_u64 rmin ->
  stats_query (Some tbl) = Returned sts ->
  chunk_timedelta sts limit = Some delta ->
  max_timestamp sts < rmin \/ (rmax <> 0 /\ rmax <= min_timestamp sts) ->
  exists st,
    import (S fuel) (Some tbl) rmin rmax limit = Finished st /\
    row st = 0 /\ out_metric st = [] /\ fetched st = [] /\ issued st = [] /\
    flushes st = 0%nat.
Proof.
  intros Hwf Hmin Es Ed Hout.
  destruct (stats_query_nonneg tbl sts Hwf Es) as (_ & Hmax & _).
  exists (init_importer (lower_bound rmin sts)).
  split; [| repeat split].
  unfold import. rewrite Es, Ed. simpl.
  rewrite import_turn_done; [reflexivity |]. simpl.
  unfold lower_bound, upper_bound. rewrite std_max_spec, std_min_spec.
  unfold is_u64 in *.
  destruct Hout as [Habove | [Hset Hbelow]].
  - rewrite (u64_id (max_timestamp sts + 1)) by (unfold is_u64; lia).
    destruct (rmax =? 0); lia.
  - destruct (Z.eqb_spec rmax 0); [contradiction | lia].
Qed.

(** Scenario D: the requested minimum is the source's maximum plus one. *)
Lemma import_outside_source_range_witness :
  exists st,
    import 1 (Some scenario_A) 501 0 2 = Finished st /\
    row st = 0 /\ out_metric st = [] /\ fetched st = [] /\ issued st = [] /\
    flushes st = 0%nat.
Proof.
  apply (import_outside_source_range 0 scenario_A 501 0 2 (mk_stats 100 500 5) 80).
  - repeat constructor; simpl; unfold two64; lia.
  - unfold is_u64, two64. lia.
  - reflexivity.
  - reflexivity.
  - left. simpl. lia.
Defined.

(** ** The loop stays below the upper bound *)

(** C9, as stated, fails: with a chunk width of 0 (the single-row source)
    the query of the first turn has its lower bound equal to its upper
    bound. *)
Lemma chunk_query_window_can_be_empty :
  exists st q,
    import 1 (Some single_row) 0 0 default_chunk_size = Running st /\
    issued st = [q] /\
    ~ q_lower q < q_upper q.
Proof.
  eexists. exists (mk_query 100 100 default_chunk_size).
  split; [vm_compute; reflexivity |]. split; [reflexivity |]. simpl. lia.
Qed.

(** C9, amended. After every update of [current_timestamp] in the loop
    body, in the empty-chunk branch as in the other, [current_timestamp] is
    at most the upper bound; the chunk query the turn issued has its lower
    bound strictly below the upper bound of the import and its upper bound
    at most that bound, the rows it returned lie in its window, and its
    lower bound is strictly below its upper bound whenever the chunk width
    is positive and [current_timestamp + chunk_timedelta] does not wrap. *)
Theorem import_turn_keeps_current_below_upper
    (tbl : table) (delta upper limit : Z) (st st' : importer) :
  0 <= current_timestamp st ->
  import_turn tbl delta upper limit st = Continue st' ->
  let q := chunk_query delta upper limit st in
  current_timestamp st' <= upper /\
  issued st' = issued st ++ [q] /\
  q_lower q < upper /\ q_upper q <= upper /\
  Forall (fun r => q_lower q <= timestamp r < q_upper q) (run_query tbl q) /\
  (0 < delta -> current_timestamp st + delta < two64 -> q_lower q < q_upper q).
Proof.
  intros Hc E q. apply import_turn_continue in E. fold q in E.
  destruct E as [Hlt E].
  pose proof (next_timestamp_le_upper delta upper (current_timestamp st)) as Hnext.
  assert (Hrows : Forall (fun r => q_lower q <= timestamp r < q_upper q) (run_query tbl q)).
  { apply Forall_forall. intros r Hr. now apply run_query_In in Hr. }
  assert (Hwin : 0 < delta -> current_timestamp st + delta < two64 -> q_lower q < q_upper q).
  { intros Hd Hw. simpl. unfold next_timestamp_of. rewrite std_min_spec.
    rewrite u64_id by (unfold is_u64; lia). lia. }
  assert (Hcur : current_timestamp st' <= upper /\ issued st' = issued st ++ [q]).
  { destruct E as [[_ ->] | (res & last & Eq & ->)]; simpl.
    - split; [exact Hnext | reflexivity].
    - destruct (import_rows_frame (res ++ [last]) (record_query st q)) as (_ & -> & _).
      split; [| reflexivity].
      assert (Hlast : In last (run_query tbl q))
        by (rewrite Eq; apply in_or_app; right; now left).
      apply run_query_In in Hlast. simpl in Hlast. destruct Hlast as [_ Hr].
      pose proof (u64_le (timestamp last + 1)). lia. }
  simpl. simpl in Hwin. tauto.
Qed.

Lemma import_turn_keeps_current_below_upper_witness :
  current_timestamp scenario_A_second <= 501.
Proof.
  apply (import_turn_keeps_current_below_upper
           scenario_A 80 501 2 (init_importer 100) scenario_A_second);
    [simpl; lia | vm_compute; reflexivity].
Defined.

(** ** The chunk width *)

(** C10, as stated, fails: a count of at least one does not make the chunk
    width well-defined.  With one stray microsecond timestamp in the source
    and the default row cap the product exceeds the range of [uint64_t];
    the conversion is undefined and so is the run. *)
Lemma chunk_timedelta_can_overflow :
  stats_query (Some stray_microseconds) = Returned (mk_stats 0 1700000000000000 2) /\
  1 <= count (mk_stats 0 1700000000000000 2) /\
  chunk_timedelta (mk_stats 0 1700000000000000 2) default_chunk_size = None /\
  import 1 (Some stray_microseconds) 0 0 default_chunk_size = Aborted UndefinedBehaviour.
Proof. repeat split; vm_compute; congruence. Qed.

(** C10, amended. For statistics and a row cap in the range of [uint64_t]:
    the divisor of the sampling interval is a non-zero double exactly when
    [count >= 1]; with [count = 0] the chunk width is undefined; with
    [count >= 1] the double [sampling_interval * max_limit / 2] is finite
    and non-negative, and the chunk width is its integer part when that is
    below 2^64 and undefined otherwise. *)
Theorem chunk_timedelta_defined (sts : stats) (limit : Z) :
  is_u64 (count sts) -> is_u64 limit ->
  (Double.is_zero (Double.of_Z (count sts)) = false <-> 1 <= count sts) /\
  (count sts = 0 -> chunk_timedelta sts limit = None) /\
  (1 <= count sts ->
   exists z,
     Double.trunc (chunk_timedelta_double sts limit) = Some z /\ 0 <= z /\
     chunk_timedelta sts limit = if z <? two64 then Some z else None).
Proof.
  intros Hc Hl. split; [split |split].
  - intros Hz. destruct (Z.eq_dec (count sts) 0) as [E | E]; [| unfold is_u64 in Hc; lia].
    rewrite E in Hz. discriminate.
  - intros Hpos. destruct (of_Z_u64_finite (count sts)) as (m & e & E & _);
      [unfold is_u64, two64 in Hc; lia |].
    change (Double.of_Z (count sts)) with (binary_normalize 53 1024 (count sts) 0 false).
    now rewrite E.
  - apply chunk_timedelta_zero_count.
  - intros Hpos.
    destruct (trunc_finite_upto 187 _ (chunk_timedelta_double_finite sts limit Hc Hpos Hl))
      as (z & Ez & Hz).
    exists z. split; [exact Ez | split; [exact Hz |]].
    unfold chunk_timedelta, Double.to_u64. rewrite Ez.
    destruct (Z.leb_spec 0 z); [reflexivity | lia].
Qed.

Lemma chunk_timedelta_defined_witness :
  exists z,
    Double.trunc (chunk_timedelta_double (mk_stats 100 500 5) 2) = Some z /\ 0 <= z /\
    chunk_timedelta (mk_stats 100 500 5) 2 = if z <? two64 then Some z else None.
Proof.
  apply (chunk_timedelta_defined (mk_stats 100 500 5) 2).
  - unfold is_u64, two64. simpl. lia.
  - unfold is_u64, two64. lia.
  - simpl. lia.
Defined.

(** * Further properties of the import *)

(** ** Order of the rows a chunk query delivers *)

Lemma insert_by_timestamp_sorted (r : source_row) (l : list source_row) :
  StronglySorted by_timestamp l -> StronglySorted by_timestamp (insert_by_timestamp r l).
Proof.
  induction l as [|x l IH]; intros Hs; simpl.
  - repeat constructor.
  - apply StronglySorted_inv in Hs. destruct Hs as [Hl Hx].
    destruct (Z.leb_spec (timestamp x) (timestamp r)) as [Hle | Hgt].
    + constructor; [now apply IH |].
      apply Forall_forall. intros y Hy. apply insert_by_timestamp_In in Hy.
      destruct Hy as [-> | Hy]; [exact Hle |].
      rewrite Forall_forall in Hx. now apply Hx.
    + constructor; [now constructor |].
      constructor; [unfold by_timestamp; lia |].
      eapply Forall_impl; [| exact Hx]. unfold by_timestamp. intros y Hy. lia.
Qed.

Lemma order_by_timestamp_sorted (l : list source_row) :
  StronglySorted by_timestamp (order_by_timestamp l).
Proof.
  induction l as [|x l IH]; simpl; [constructor |].
  now apply insert_by_timestamp_sorted.
Qed.

Lemma sorted_app_iff {A : Type} (R : A -> A -> Prop) (l1 l2 : list A) :
  StronglySorted R (l1 ++ l2) <->
  StronglySorted R l1 /\ StronglySorted R l2 /\
  (forall a b, In a l1 -> In b l2 -> R a b).
Proof.
  induction l1 as [|x l1 IH]; simpl.
  - split; [intros H; repeat split; [constructor | assumption | tauto] | tauto].
  - split.
    + intros H. apply StronglySorted_inv in H. destruct H as [Hs Hx].
      apply IH in Hs. destruct Hs as (H1 & H2 & H12).
      rewrite Forall_app in Hx. destruct Hx as [Hx1 Hx2].
      repeat split; [now constructor | assumption |].
      intros a b [-> | Ha] Hb; [| now apply H12].
      rewrite Forall_forall in Hx2. now apply Hx2.
    + intros (H1 & H2 & H12). apply StronglySorted_inv in H1. destruct H1 as [H1 Hx].
      constructor.
      * apply IH. repeat split; try assumption. intros a b Ha Hb. apply H12; tauto.
      * apply Forall_app. split; [assumption |].
        apply Forall_forall. intros b Hb. apply H12; tauto.
Qed.

Lemma run_query_sorted (tbl : table) (q : query) :
  StronglySorted by_timestamp (run_query tbl q).
Proof.
  unfold run_query, executeQuery.
  set (L := order_by_timestamp (filter (where_clause (q_lower q) (q_upper q)) tbl)).
  pose proof (order_by_timestamp_sorted (filter (where_clause (q_lower q) (q_upper q)) tbl)) as H.
  fold L in H. rewrite <- (firstn_skipn (Z.to_nat (q_limit q)) L) in H.
  now apply sorted_app_iff in H.
Qed.

(** A row of the table inside the window of a query with a positive row
    cap is delivered, or comes after every delivered row; in either case
    the result set is not empty. *)
Lemma run_query_complete (tbl : table) (q : query) (r : source_row) :
  1 <= q_limit q -> In r tbl -> q_lower q <= timestamp r < q_upper q ->
  run_query tbl q <> [] /\
  (In r (run_query tbl q) \/
   forall a, In a (run_query tbl q) -> timestamp a <= timestamp r).
Proof.
  intros Hlim Hin Hr. unfold run_query, executeQuery.
  set (L := order_by_timestamp (filter (where_clause (q_lower q) (q_upper q)) tbl)).
  assert (HL : In r L).
  { apply order_by_timestamp_In, filter_In. split; [assumption |].
    unfold where_clause. apply andb_true_iff. lia. }
  pose proof (order_by_timestamp_sorted (filter (where_clause (q_lower q) (q_upper q)) tbl)) as Hs.
  fold L in Hs.
  destruct (Z.to_nat (q_limit q)) as [|n] eqn:En; [lia |].
  split.
  - destruct L as [|x L']; [contradiction | discriminate].
  - rewrite <- (firstn_skipn (S n) L) in HL, Hs.
    apply in_app_or in HL. destruct HL as [H | H]; [now left | right].
    apply sorted_app_iff in Hs. destruct Hs as (_ & _ & H12).
    intros a Ha. now apply H12.
Qed.

(** ** The loop covers the source *)

Lemma covers_init (tbl : table) (lower upper : Z) :
  covers tbl lower upper (init_importer lower).
Proof.
  constructor; simpl; try constructor; lia.
Qed.

Lemma import_turn_covers (tbl : table) (delta upper limit lower : Z) (st st' : importer) :
  0 < delta -> upper + delta <= two64 -> 1 <= limit -> 0 <= lower ->
  covers tbl lower upper st ->
  import_turn tbl delta upper limit st = Continue st' ->
  covers tbl lower upper st'.
Proof.
  intros Hd Hu Hlim Hlo [Hc Hrows Hbelow Hsorted Hall] E.
  apply import_turn_continue in E.
  set (q := chunk_query delta upper limit st) in *.
  destruct E as [Hlt E].
  pose proof (next_timestamp_le_upper delta upper (current_timestamp st)) as Hnext.
  assert (Hnx : next_timestamp_of delta upper (current_timestamp st)
                = Z.min (current_timestamp st + delta) upper).
  { unfold next_timestamp_of. rewrite std_min_spec, u64_id; [reflexivity |].
    unfold is_u64. lia. }
  destruct E as [[Eq ->] | (res & last & Eq & ->)].
  - (* empty chunk *)
    constructor; simpl; try assumption.
    + rewrite Hnx. lia.
    + eapply Forall_impl; [| exact Hbelow]. simpl. intros r Hr. rewrite Hnx. lia.
    + intros r Hin Hr Hup.
      destruct (Z.lt_ge_cases (timestamp r) (current_timestamp st)) as [Hold | Hnew].
      * apply Hall; [assumption | lia | assumption].
      * exfalso. destruct (run_query_complete tbl q r) as [Hne _];
          [exact Hlim | assumption | simpl; lia | congruence].
  - (* rows delivered *)
    assert (HR : forall a, In a (res ++ [last]) ->
                           In a tbl /\ current_timestamp st <= timestamp a
                                      < next_timestamp_of delta upper (current_timestamp st)).
    { intros a Ha. rewrite <- Eq in Ha. now apply run_query_In in Ha. }
    assert (Hlast : In last (res ++ [last])) by (apply in_or_app; right; now left).
    pose proof (run_query_sorted tbl q) as HsR. rewrite Eq in HsR.
    assert (Hmax : forall a, In a (res ++ [last]) -> timestamp a <= timestamp last).
    { intros a Ha. apply in_app_or in Ha. destruct Ha as [Ha | [<- | []]]; [| lia].
      apply sorted_app_iff in HsR. destruct HsR as (_ & _ & H12).
      apply (H12 a last); [assumption | now left]. }
    pose proof (HR last Hlast) as [_ Hrl].
    assert (Hcur : u64 (timestamp last + 1) = timestamp last + 1)
      by (apply u64_id; unfold is_u64; lia).
    destruct (import_rows_frame (res ++ [last]) (record_query st q)) as (_ & _ & _ & Hf).
    constructor; simpl; rewrite ?Hcur, ?Hf; simpl.
    + lia.
    + apply Forall_app. split; [assumption |].
      apply Forall_forall. intros a Ha. destruct (HR a Ha) as [Hin Ha']. split; [assumption | lia].
    + apply Forall_app. split.
      * eapply Forall_impl; [| exact Hbelow]. simpl. intros a Ha. lia.
      * apply Forall_forall. intros a Ha. specialize (Hmax a Ha). lia.
    + apply sorted_app_iff. repeat split; [assumption | assumption |].
      intros a b Ha Hb. rewrite Forall_forall in Hbelow. specialize (Hbelow a Ha).
      destruct (HR b Hb) as [_ Hb']. unfold by_timestamp. lia.
    + intros r Hin Hr Hup. rewrite map_app. apply in_or_app.
      destruct (Z.lt_ge_cases (timestamp r) (current_timestamp st)) as [Hold | Hnew].
      * left. apply Hall; [assumption | lia | assumption].
      * right.
        destruct (run_query_complete tbl q r) as [_ Hcomp];
          [exact Hlim | assumption | simpl; rewrite Hnx; lia |].
        rewrite Eq in Hcomp. destruct Hcomp as [Hdel | Hafter].
        -- now apply in_map.
        -- specialize (Hafter last Hlast).
           replace (timestamp r) with (timestamp last) by lia. now apply in_map.
Qed.

Lemma import_loop_covers (tbl : table) (delta upper limit lower : Z)
    (fuel : nat) (st : importer) :
  0 < delta -> upper + delta <= two64 -> 1 <= limit -> 0 <= lower ->
  reached (import_loop fuel tbl delta upper limit (init_importer lower)) st ->
  covers tbl lower upper st.
Proof.
  intros Hd Hu Hlim Hlo H.
  eapply import_loop_invariant; [| apply covers_init | exact H].
  intros s s'. now apply import_turn_covers.
Qed.

Lemma import_loop_finished (fuel : nat) (tbl : table) (delta upper limit : Z)
    (st st' : importer) :
  import_loop fuel tbl delta upper limit st = Finished st' ->
  upper <= current_timestamp st'.
Proof.
  revert st. induction fuel as [|fuel IH]; intros st H; simpl in H; [discriminate |].
  destruct (import_turn tbl delta upper limit st) as [s | s |] eqn:E; try discriminate.
  - apply import_turn_completed in E. destruct E as [-> Hc]. now injection H as <-.
  - now apply (IH s).
Qed.

(** ** The filter on rows in ascending order *)

Lemma monotone_filter_In (l : list source_row) (c : TimePoint) (s : sample) :
  In s (monotone_filter c l) ->
  exists r, In r l /\ s = mk_sample (hta_time_of (timestamp r)) (value r) /\ c < time s.
Proof.
  revert c. induction l as [|x l IH]; intros c; simpl; [tauto |].
  destruct (Z.ltb_spec c (hta_time_of (timestamp x))) as [Hlt | Hge].
  - intros [<- | H].
    + exists x. repeat split; [now left | assumption].
    + destruct (IH _ H) as (r & Hin & E & Hc). exists r. repeat split; [now right | assumption | lia].
  - intros H. destruct (IH _ H) as (r & Hin & E & Hc). exists r. repeat split; [now right | assumption | assumption].
Qed.

(** On rows in ascending order whose timestamps convert exactly, the
    filter keeps one sample for every converted time above the cursor. *)
Lemma monotone_filter_ascending (l : list source_row) (c : TimePoint) :
  StronglySorted by_timestamp l ->
  Forall (fun r => 0 <= timestamp r <= 9223372036854) l ->
  forall t, In t (map time (monotone_filter c l)) <->
            exists r, In r l /\ t = hta_time_of (timestamp r) /\ c < t.
Proof.
  intros Hs Hd t. split.
  - intros H. apply in_map_iff in H. destruct H as (s & <- & Hin).
    apply monotone_filter_In in Hin. destruct Hin as (r & Hr & -> & Hc).
    exists r. repeat split; assumption.
  - revert c Hs Hd. induction l as [|x l IH]; intros c Hs Hd (r & Hin & -> & Hc); [contradiction |].
    apply StronglySorted_inv in Hs. destruct Hs as [Hsl Hx].
    inversion Hd as [|? ? Hdx Hdl]; subst. simpl.
    assert (Hmono : In r l -> hta_time_of (timestamp x) <= hta_time_of (timestamp r)).
    { intros Hr. rewrite Forall_forall in Hx, Hdl. specialize (Hx r Hr). specialize (Hdl r Hr).
      unfold by_timestamp in Hx. rewrite !hta_time_of_exact by lia. lia. }
    destruct (Z.ltb_spec c (hta_time_of (timestamp x))) as [Hlt | Hge]; simpl.
    + destruct Hin as [-> | Hr]; [now left |].
      destruct (Z.eq_dec (hta_time_of (timestamp x)) (hta_time_of (timestamp r))) as [E | Hne];
        [now left | right].
      apply IH; try assumption. exists r. repeat split; [assumption |].
      specialize (Hmono Hr). lia.
    + destruct Hin as [-> | Hr]; [lia |].
      apply IH; try assumption. exists r. repeat split; assumption.
Qed.

(** ** Accounting of flushes *)

Lemma delivering_snoc (tbl : table) (qs : list query) (q : query) :
  delivering tbl (qs ++ [q])
  = (delivering tbl qs + (if Nat.eqb (length (run_query tbl q)) 0 then 0 else 1))%nat.
Proof.
  unfold delivering. rewrite filter_app, length_app. simpl.
  destruct (Nat.eqb (length (run_query tbl q)) 0); reflexivity.
Qed.

Lemma import_turn_flushes (tbl : table) (delta upper limit : Z) (st st' : importer) :
  flushes st = delivering tbl (issued st) ->
  import_turn tbl delta upper limit st = Continue st' ->
  flushes st' = delivering tbl (issued st').
Proof.
  intros H E. apply import_turn_continue in E.
  destruct E as [_ [[Eq ->] | (res & last & Eq & ->)]]; simpl.
  - rewrite delivering_snoc, Eq. simpl. lia.
  - destruct (import_rows_frame (res ++ [last])
                (record_query st (chunk_query delta upper limit st))) as (_ & -> & -> & _).
    simpl. rewrite delivering_snoc, Eq, length_app. simpl.
    replace (length res + 1)%nat with (S (length res)) by lia. simpl. lia.
Qed.

Lemma import_turn_row_cap (tbl : table) (delta upper limit : Z) (st st' : importer) :
  (length (fetched st) <= Z.to_nat limit * length (issued st))%nat ->
  import_turn tbl delta upper limit st = Continue st' ->
  (length (fetched st') <= Z.to_nat limit * length (issued st'))%nat.
Proof.
  intros H E. apply import_turn_continue in E.
  destruct E as [_ [[Eq ->] | (res & last & Eq & ->)]]; simpl.
  - rewrite length_app. simpl. nia.
  - destruct (import_rows_frame (res ++ [last])
                (record_query st (chunk_query delta upper limit st))) as (_ & -> & _ & ->).
    simpl. rewrite !length_app.
    pose proof (executeQuery_length tbl (current_timestamp st)
                  (next_timestamp_of delta upper (current_timestamp st)) limit) as Hl.
    unfold run_query in Eq. simpl in Eq. rewrite Eq, length_app in Hl. simpl in *. nia.
Qed.

(** ** Sources whose rows share one timestamp *)

Lemma chunk_timedelta_flat (sts : stats) (limit : Z) :
  is_u64 (count sts) -> 1 <= count sts -> is_u64 limit ->
  max_timestamp sts = min_timestamp sts ->
  chunk_timedelta sts limit = Some 0.
Proof.
  intros Hc Hpos Hl E.
  unfold chunk_timedelta, chunk_timedelta_double, sampling_interval. rewrite E, Z.sub_diag.
  change (Double.of_Z (u64 0)) with (S754_zero false). rewrite of_Z_two.
  destruct (of_Z_u64_finite (count sts)) as (m & e & Em & _);
    [unfold is_u64, two64 in Hc; lia |].
  change (Double.of_Z (count sts)) with (binary_normalize 53 1024 (count sts) 0 false).
  rewrite Em.
  destruct (of_Z_u64_upto limit Hl) as [El | (m' & e' & El & _)];
    change (Double.of_Z limit) with (binary_normalize 53 1024 limit 0 false);
    rewrite El; reflexivity.
Qed.

(** ** The probe attains its bounds *)

Lemma stats_query_attained (tbl : table) (sts : stats) :
  tbl <> [] ->
  stats_query (Some tbl) = Returned sts ->
  (exists r, In r tbl /\ timestamp r = min_timestamp sts) /\
  (exists r, In r tbl /\ timestamp r = max_timestamp sts) /\
  Forall (fun r => min_timestamp sts <= timestamp r <= max_timestamp sts) tbl /\
  count sts = Z.of_nat (length tbl).
Proof.
  intros Hne. rewrite stats_query_table. intros E. injection E as <-.
  destruct tbl as [|x l]; [congruence |]. cbn [min_timestamp max_timestamp count].
  unfold sql_min, sql_max. cbn [fold_left opt_min opt_max].
  destruct (fold_opt_min l (timestamp x)) as (mn & -> & Hmn & Hamn & Hwmn).
  destruct (fold_opt_max l (timestamp x)) as (mx & -> & Hmx & Hamx & Hwmx).
  cbn [getUInt64]. repeat split.
  - destruct Hwmn as [-> | (r & Hin & Hr)]; [exists x | exists r]; split; auto using in_eq, in_cons.
  - destruct Hwmx as [-> | (r & Hin & Hr)]; [exists x | exists r]; split; auto using in_eq, in_cons.
  - constructor; [lia |]. rewrite Forall_forall in *. intros r Hr.
    specialize (Hamn r Hr). specialize (Hamx r Hr). lia.
Qed.

Lemma dated_well_formed (tbl : table) : dated tbl -> well_formed tbl.
Proof.
  apply Forall_impl. intros r Hr. unfold is_u64. rewrite two64_eq. lia.
Qed.

Lemma import_loop_consistent (fuel : nat) (tbl : table) (delta upper limit lower : Z)
    (st : importer) :
  reached (import_loop fuel tbl delta upper limit (init_importer lower)) st ->
  consistent st.
Proof.
  intros H. eapply import_loop_invariant; [| apply consistent_init | exact H].
  intros s s'. apply import_turn_consistent.
Qed.

Lemma std_replace_length (a b : ascii) (s : String.string) :
  String.length (std_replace a b s) = String.length s.
Proof. induction s as [|c s IH]; simpl; congruence. Qed.

Lemma std_replace_get (a b : ascii) (s : String.string) (n : nat) :
  String.get n (std_replace a b s)
  = option_map (fun c => if Ascii.eqb c a then b else c) (String.get n s).
Proof.
  revert n. induction s as [|c s IH]; intros n; simpl; [reflexivity |].
  destruct n; [reflexivity | apply IH].
Qed.

(** * Further results *)

(** X1. With a positive chunk width that cannot wrap past 2^64, the outer
    loop of [import] started at a non-negative [current_timestamp] returns
    within [upper - current_timestamp + 1] turns, and it returns with
    [current_timestamp] at or above the upper bound. *)
Theorem import_loop_finishes_with_positive_width
    (tbl : table) (delta upper limit : Z) (st : importer) :
  0 < delta -> upper + delta <= two64 -> 0 <= current_timestamp st ->
  exists st',
    import_loop (S (Z.to_nat (upper - current_timestamp st))) tbl delta upper limit st
    = Finished st' /\
    upper <= current_timestamp st'.
Proof.
  intros Hd Hu Hc.
  destruct (import_loop_terminates tbl delta upper limit Hd Hu
              (Z.to_nat (upper - current_timestamp st)) st Hc) as (st' & E); [lia |].
  exists st'. split; [exact E |]. now apply import_loop_finished in E.
Qed.

Lemma import_loop_finishes_with_positive_width_witness :
  exists st',
    import_loop (S (Z.to_nat (501 - 100))) scenario_A 80 501 2 (init_importer 100)
    = Finished st' /\
    501 <= current_timestamp st'.
Proof.
  apply (import_loop_finishes_with_positive_width scenario_A 80 501 2 (init_importer 100)).
  - lia.
  - rewrite two64_eq. lia.
  - simpl. lia.
Defined.

(** X2. A turn of the outer loop never reads [current_dataheap_timestamp]
    before a row has written it, whatever the state it starts from (the
    variable is declared without initialiser): the assignment
    [current_timestamp = current_dataheap_timestamp + 1] is only reached
    after a result set with at least one row, and the variable then holds
    the raw timestamp of the last row of that result set; an empty chunk
    leaves it untouched and does not read it. *)
Theorem import_turn_reads_no_indeterminate_value
    (tbl : table) (delta upper limit : Z) (st : importer) :
  import_turn tbl delta upper limit st <> Stuck /\
  forall st',
    import_turn tbl delta upper limit st = Continue st' ->
    (run_query tbl (chunk_query delta upper limit st) = [] /\
     current_dataheap_timestamp st' = current_dataheap_timestamp st /\
     current_timestamp st' = q_upper (chunk_query delta upper limit st)) \/
    (exists res last,
        run_query tbl (chunk_query delta upper limit st) = res ++ [last] /\
        current_dataheap_timestamp st' = Some (timestamp last) /\
        current_timestamp st' = u64 (timestamp last + 1)).
Proof.
  split; [apply import_turn_total |].
  intros st' E. apply import_turn_continue in E.
  destruct E as [_ [[Eq ->] | (res & last & Eq & ->)]].
  - left. repeat split. exact Eq.
  - right. exists res, last. split; [exact Eq |]. split; [| reflexivity].
    unfold set_current, flush. simpl. apply import_rows_last.
Qed.

(** The first turn on scenario A starts with the variable unset and ends
    with the timestamp of the row it fetched. *)
Lemma import_turn_reads_no_indeterminate_value_witness :
  current_dataheap_timestamp (init_importer 100) = None /\
  import_turn scenario_A 80 501 2 (init_importer 100) <> Stuck /\
  ((run_query scenario_A (chunk_query 80 501 2 (init_importer 100)) = [] /\
    current_dataheap_timestamp scenario_A_second
    = current_dataheap_timestamp (init_importer 100) /\
    current_timestamp scenario_A_second = q_upper (chunk_query 80 501 2 (init_importer 100)))
   \/
   (exists res last,
       run_query scenario_A (chunk_query 80 501 2 (init_importer 100)) = res ++ [last] /\
       current_dataheap_timestamp scenario_A_second = Some (timestamp last) /\
       current_timestamp scenario_A_second = u64 (timestamp last + 1))).
Proof.
  destruct (import_turn_reads_no_indeterminate_value scenario_A 80 501 2 (init_importer 100))
    as [H1 H2].
  split; [reflexivity | split; [exact H1 |]].
  apply H2. vm_compute. reflexivity.
Defined.

(** X3. On a non-empty table [stats_query] returns the number of rows and
    the least and the greatest timestamp of the table: both are timestamps
    of rows, and every row lies between them. *)
Theorem stats_query_is_the_extent (tbl : table) (sts : stats) :
  tbl <> [] ->
  stats_query (Some tbl) = Returned sts ->
  count sts = Z.of_nat (length tbl) /\
  (exists r, In r tbl /\ timestamp r = min_timestamp sts) /\
  (exists r, In r tbl /\ timestamp r = max_timestamp sts) /\
  forall r, In r tbl -> min_timestamp sts <= timestamp r <= max_timestamp sts.
Proof.
  intros Hne E. destruct (stats_query_attained tbl sts Hne E) as (Hmin & Hmax & Hall & Hc).
  repeat split; try assumption; rewrite Forall_forall in Hall; now apply Hall.
Qed.

Lemma stats_query_is_the_extent_witness :
  count (mk_stats 100 300 4) = Z.of_nat (length scenario_B) /\
  (exists r, In r scenario_B /\ timestamp r = min_timestamp (mk_stats 100 300 4)) /\
  (exists r, In r scenario_B /\ timestamp r = max_timestamp (mk_stats 100 300 4)) /\
  forall r, In r scenario_B ->
            min_timestamp (mk_stats 100 300 4) <= timestamp r
            <= max_timestamp (mk_stats 100 300 4).
Proof.
  apply (stats_query_is_the_extent scenario_B (mk_stats 100 300 4)).
  - discriminate.
  - reflexivity.
Defined.

(** X4. With a positive chunk width that cannot wrap and a positive row
    cap, in every state the loop reaches the rows fetched so far are rows
    of the source table inside the clamped bounds, they were fetched in
    ascending order of their timestamps across all chunks, and every
    inserted sample carries the converted timestamp and the value of such
    a row. *)
Theorem import_loop_fetches_in_bounds_ascending
    (fuel : nat) (tbl : table) (delta upper limit lower : Z) (st : importer) :
  0 < delta -> upper + delta <= two64 -> 1 <= limit -> 0 <= lower ->
  reached (import_loop fuel tbl delta upper limit (init_importer lower)) st ->
  Forall (fun r => In r tbl /\ lower <= timestamp r < upper) (fetched st) /\
  StronglySorted by_timestamp (fetched st) /\
  forall s, In s (out_metric st) ->
            exists r, In r tbl /\ lower <= timestamp r < upper /\
                      s = mk_sample (hta_time_of (timestamp r)) (value r).
Proof.
  intros Hd Hu Hlim Hlo H.
  destruct (import_loop_covers tbl delta upper limit lower fuel st Hd Hu Hlim Hlo H)
    as [_ Hrows _ Hsorted _].
  destruct (import_loop_consistent fuel tbl delta upper limit lower st H) as [Ho _ _ _].
  repeat split; try assumption.
  intros s Hs. rewrite Ho in Hs. apply monotone_filter_In in Hs.
  destruct Hs as (r & Hr & -> & _).
  rewrite Forall_forall in Hrows. destruct (Hrows r Hr) as [Hin Hb].
  exists r. repeat split; try assumption; lia.
Qed.

Lemma import_loop_fetches_in_bounds_ascending_witness :
  Forall (fun r => In r scenario_B /\ 100 <= timestamp r < 301) (fetched scenario_B_final) /\
  StronglySorted by_timestamp (fetched scenario_B_final) /\
  forall s, In s (out_metric scenario_B_final) ->
            exists r, In r scenario_B /\ 100 <= timestamp r < 301 /\
                      s = mk_sample (hta_time_of (timestamp r)) (value r).
Proof.
  apply (import_loop_fetches_in_bounds_ascending
           20 scenario_B 500000000 301 default_chunk_size 100 scenario_B_final).
  - lia.
  - rewrite two64_eq. lia.
  - unfold default_chunk_size. lia.
  - lia.
  - left. vm_compute. reflexivity.
Defined.

(** X5. No data loss.  For a non-empty source whose timestamps are unix
    milliseconds up to 9223372036854, a row cap of at least 1 and a chunk
    width between 1 and 2^63, [import] returns, and the destination then
    holds, in strictly ascending order, exactly one sample for every
    distinct positive timestamp of the source inside the requested range;
    each sample carries the value of a source row with that timestamp. *)
Theorem import_imports_every_timestamp
    (tbl : table) (rmin rmax limit : Z) (sts : stats) (delta : Z) :
  dated tbl -> tbl <> [] -> 0 <= rmin -> 1 <= limit ->
  stats_query (Some tbl) = Returned sts ->
  chunk_timedelta sts limit = Some delta -> 0 < delta <= two63 ->
  exists st,
    import (S (Z.to_nat (upper_bound rmax sts - lower_bound rmin sts)))
           (Some tbl) rmin rmax limit = Finished st /\
    StronglySorted Z.lt (map time (out_metric st)) /\
    (forall t, In t (map time (out_metric st)) <->
               exists r, In r tbl /\ requested rmin rmax (timestamp r) /\
                         0 < timestamp r /\ t = timestamp r * 1000000) /\
    (forall s, In s (out_metric st) ->
               exists r, In r tbl /\ requested rmin rmax (timestamp r) /\
                         s = mk_sample (timestamp r * 1000000) (value r)).
Proof.
  intros Hdated Hne Hrmin Hlim Es Ed Hdelta.
  destruct (stats_query_attained tbl sts Hne Es) as ((rlo & Hlo_in & Hlo) & (rhi & Hhi_in & Hhi)
                                                     & Hall & _).
  pose proof Hdated as Hd. unfold dated in Hd. rewrite Forall_forall in Hd, Hall.
  pose proof (Hd rlo Hlo_in) as Hlo_d. pose proof (Hd rhi Hhi_in) as Hhi_d.
  set (lower := lower_bound rmin sts). set (upper := upper_bound rmax sts).
  assert (Hlower : lower = Z.max rmin (min_timestamp sts))
    by (unfold lower, lower_bound; apply std_max_spec).
  assert (Hupper : upper = if rmax =? 0 then max_timestamp sts + 1
                           else Z.min rmax (max_timestamp sts + 1)).
  { unfold upper, upper_bound. rewrite std_min_spec, u64_id; [reflexivity |].
    unfold is_u64. rewrite two64_eq. lia. }
  assert (Hu : upper + delta <= two64).
  { rewrite two63_eq in Hdelta. rewrite two64_eq, Hupper. destruct (rmax =? 0); lia. }
  assert (Hrange : forall r, In r tbl ->
             (lower <= timestamp r < upper <-> requested rmin rmax (timestamp r))).
  { intros r Hr. specialize (Hall r Hr). unfold requested. rewrite Hlower, Hupper.
    destruct (Z.eqb_spec rmax 0); lia. }
  assert (E : import (S (Z.to_nat (upper - lower))) (Some tbl) rmin rmax limit
              = import_loop (S (Z.to_nat (upper - lower))) tbl delta upper limit
                            (init_importer lower)).
  { unfold import. rewrite Es, Ed. reflexivity. }
  destruct (import_loop_terminates tbl delta upper limit (proj1 Hdelta) Hu
              (Z.to_nat (upper - lower)) (init_importer lower)) as (st & Ef);
    [simpl; lia | simpl; lia |].
  exists st. split; [now rewrite E |].
  assert (Hreach : reached (import_loop (S (Z.to_nat (upper - lower))) tbl delta upper limit
                                        (init_importer lower)) st) by now left.
  destruct (import_loop_covers tbl delta upper limit lower _ st (proj1 Hdelta) Hu Hlim
              ltac:(lia) Hreach) as [_ Hrows _ Hsorted Hcov].
  destruct (import_loop_consistent _ tbl delta upper limit lower st Hreach) as [Ho _ _ _].
  apply import_loop_finished in Ef.
  rewrite Forall_forall in Hrows.
  assert (Hfd : Forall (fun r => 0 <= timestamp r <= 9223372036854) (fetched st)).
  { apply Forall_forall. intros r Hr. apply Hd. now apply Hrows. }
  split; [rewrite Ho; apply monotone_filter_sorted | split].
  - intros t. rewrite Ho, (monotone_filter_ascending _ _ Hsorted Hfd t). split.
    + intros (r & Hr & -> & Hpos). destruct (Hrows r Hr) as [Hin Hb].
      rewrite hta_time_of_exact in * by (now apply Hd).
      exists r. split; [assumption | split; [now apply Hrange | split; [| reflexivity]]].
      unfold TimePoint_default in Hpos. lia.
    + intros (r & Hin & Hreq & Hpos & ->). apply Hrange in Hreq; [| assumption].
      assert (Hts : In (timestamp r) (map timestamp (fetched st)))
        by (apply Hcov; [assumption | lia | lia]).
      apply in_map_iff in Hts. destruct Hts as (r' & Er & Hr').
      exists r'. rewrite Er. split; [assumption | split].
      * rewrite hta_time_of_exact by (now apply Hd). reflexivity.
      * unfold TimePoint_default. lia.
  - intros s Hs. rewrite Ho in Hs. apply monotone_filter_In in Hs.
    destruct Hs as (r & Hr & -> & _). destruct (Hrows r Hr) as [Hin Hb].
    exists r. split; [assumption | split; [now apply Hrange |]].
    rewrite hta_time_of_exact by (now apply Hd). reflexivity.
Qed.

Lemma import_imports_every_timestamp_witness :
  exists st,
    import (S (Z.to_nat (upper_bound 0 (mk_stats 100 300 4) - lower_bound 0 (mk_stats 100 300 4))))
           (Some scenario_B) 0 0 default_chunk_size = Finished st /\
    StronglySorted Z.lt (map time (out_metric st)) /\
    (forall t, In t (map time (out_metric st)) <->
               exists r, In r scenario_B /\ requested 0 0 (timestamp r) /\
                         0 < timestamp r /\ t = timestamp r * 1000000) /\
    (forall s, In s (out_metric st) ->
               exists r, In r scenario_B /\ requested 0 0 (timestamp r) /\
                         s = mk_sample (timestamp r * 1000000) (value r)).
Proof.
  apply (import_imports_every_timestamp
           scenario_B 0 0 default_chunk_size (mk_stats 100 300 4) 500000000).
  - repeat constructor; simpl; lia.
  - discriminate.
  - lia.
  - unfold default_chunk_size. lia.
  - reflexivity.
  - reflexivity.
  - rewrite two63_eq. lia.
Defined.

(** X6. In every state a run of [import] reaches, the destination metric
    has been flushed exactly once for each chunk query that delivered
    rows; empty chunks cause no flush. *)
Theorem import_flushes_once_per_delivering_chunk
    (fuel : nat) (tbl : table) (rmin rmax limit : Z) (st : importer) :
  reached (import fuel (Some tbl) rmin rmax limit) st ->
  flushes st = delivering tbl (issued st) /\
  (flushes st <= length (issued st))%nat.
Proof.
  intros H. apply import_reached in H.
  destruct H as (tbl' & sts & delta & Edb & _ & _ & H). injection Edb as <-.
  assert (Hf : flushes st = delivering tbl (issued st)).
  { eapply (import_loop_invariant (fun s => flushes s = delivering tbl (issued s)));
      [| | exact H]; [| reflexivity].
    intros s s'. apply import_turn_flushes. }
  split; [exact Hf |]. rewrite Hf. unfold delivering. apply filter_length_le.
Qed.

Lemma import_flushes_once_per_delivering_chunk_witness :
  flushes scenario_B_final = delivering scenario_B (issued scenario_B_final) /\
  (flushes scenario_B_final <= length (issued scenario_B_final))%nat.
Proof.
  apply (import_flushes_once_per_delivering_chunk
           20 scenario_B 0 0 default_chunk_size scenario_B_final).
  left. vm_compute. reflexivity.
Defined.

(** X7. The row cap bounds what a run fetches: in every state [import]
    reaches, the number of rows fetched is at most [max_limit] times the
    number of chunk queries executed. *)
Theorem import_fetches_at_most_the_row_cap_per_query
    (fuel : nat) (tbl : table) (rmin rmax limit : Z) (st : importer) :
  reached (import fuel (Some tbl) rmin rmax limit) st ->
  (length (fetched st) <= Z.to_nat limit * length (issued st))%nat.
Proof.
  intros H. apply import_reached in H.
  destruct H as (tbl' & sts & delta & Edb & _ & _ & H). injection Edb as <-.
  eapply (import_loop_invariant
            (fun s => (length (fetched s) <= Z.to_nat limit * length (issued s))%nat));
    [| | exact H]; [| simpl; lia].
  intros s s'. apply import_turn_row_cap.
Qed.

Lemma import_fetches_at_most_the_row_cap_per_query_witness :
  (length (fetched scenario_B_final)
   <= Z.to_nat default_chunk_size * length (issued scenario_B_final))%nat.
Proof.
  apply (import_fetches_at_most_the_row_cap_per_query
           20 scenario_B 0 0 default_chunk_size scenario_B_final).
  left. vm_compute. reflexivity.
Defined.

(** X8. A non-empty source all of whose rows carry the same timestamp is
    never imported: whenever that timestamp lies in the requested range,
    the chunk width is 0 for every row cap and, whatever number of turns
    the loop is given, [import] is still running and has inserted
    nothing. *)
Theorem import_flat_source_never_finishes
    (fuel : nat) (tbl : table) (rmin rmax limit : Z) (sts : stats) :
  tbl <> [] -> Z.of_nat (length tbl) < two64 -> is_u64 limit ->
  stats_query (Some tbl) = Returned sts ->
  max_timestamp sts = min_timestamp sts ->
  0 <= min_timestamp sts < two64 - 1 ->
  requested rmin rmax (min_timestamp sts) ->
  chunk_timedelta sts limit = Some 0 /\
  exists st,
    import fuel (Some tbl) rmin rmax limit = Running st /\
    current_timestamp st = min_timestamp sts /\
    out_metric st = [] /\ fetched st = [] /\
    length (issued st) = fuel.
Proof.
  intros Hne Hlen Hl Es Eflat Hmin [Hreq_lo Hreq_hi].
  destruct (stats_query_attained tbl sts Hne Es) as (_ & _ & _ & Hc).
  assert (Hpos : 1 <= count sts) by (rewrite Hc; destruct tbl; [congruence | simpl; lia]).
  assert (Hcu : is_u64 (count sts)) by (unfold is_u64; lia).
  pose proof (chunk_timedelta_flat sts limit Hcu Hpos Hl Eflat) as Ed.
  split; [exact Ed |].
  assert (Hlower : lower_bound rmin sts = min_timestamp sts)
    by (unfold lower_bound; rewrite std_max_spec; lia).
  assert (Hupper : min_timestamp sts < upper_bound rmax sts <= two64).
  { unfold upper_bound. rewrite std_min_spec, Eflat, u64_id by (unfold is_u64; lia).
    destruct (Z.eqb_spec rmax 0); lia. }
  unfold import. rewrite Es, Ed, Hlower.
  destruct (import_loop_stalls tbl (upper_bound rmax sts) limit fuel
              (init_importer (min_timestamp sts))) as (st & E & H1 & H2 & _ & H3);
    [simpl; lia | lia |].
  exists st. split; [exact E |]. simpl in *.
  split; [assumption | split; [assumption | split; [| assumption]]].
  assert (Hcons : reached (import_loop fuel tbl 0 (upper_bound rmax sts) limit
                                       (init_importer (min_timestamp sts))) st) by now right.
  apply import_loop_consistent in Hcons. destruct Hcons as [Ho _ _ _].
  rewrite H2 in Ho.
  destruct (fetched st) as [|r l] eqn:Ef; [reflexivity |].
  exfalso.
  (* a fetched row would have been delivered by a query over an empty window *)
  assert (Hnone : forall n s,
             fetched s = [] -> 0 <= current_timestamp s < upper_bound rmax sts ->
             forall s', import_loop n tbl 0 (upper_bound rmax sts) limit s = Running s' ->
                        fetched s' = []).
  { induction n as [|n IH]; intros s Hs Hcs s' Hrun; simpl in Hrun.
    - now injection Hrun as <-.
    - destruct (import_turn_stalls tbl (upper_bound rmax sts) limit s Hcs (proj2 Hupper))
        as (s1 & E1 & C1 & _ & _ & _).
      rewrite E1 in Hrun. apply (IH s1); [| lia | exact Hrun].
      apply import_turn_continue in E1.
      destruct E1 as [_ [[_ ->] | (res & last & Eq & _)]]; [exact Hs |].
      exfalso. unfold run_query, chunk_query, next_timestamp_of in Eq. simpl in Eq.
      rewrite executeQuery_empty_window in Eq.
      + destruct res; discriminate.
      + rewrite std_min_spec, Z.add_0_r, u64_id by (unfold is_u64; lia). lia. }
  specialize (Hnone fuel (init_importer (min_timestamp sts)) eq_refl ltac:(simpl; lia) st E).
  congruence.
Qed.

Lemma import_flat_source_never_finishes_witness :
  chunk_timedelta (mk_stats 100 100 1) 7 = Some 0 /\
  exists st,
    import 3 (Some single_row) 0 0 7 = Running st /\
    current_timestamp st = min_timestamp (mk_stats 100 100 1) /\
    out_metric st = [] /\ fetched st = [] /\
    length (issued st) = 3%nat.
Proof.
  apply (import_flat_source_never_finishes 3 single_row 0 0 7 (mk_stats 100 100 1)).
  - discriminate.
  - rewrite two64_eq. simpl. lia.
  - unfold is_u64. rewrite two64_eq. lia.
  - reflexivity.
  - reflexivity.
  - rewrite two64_eq. simpl. lia.
  - unfold requested. simpl. lia.
Defined.

(** X9. Without [--import-metric] the source table name is the metric
    name with every '.' replaced by '_': it has the same length, agrees
    with the metric name at every position that does not hold a '.', holds
    '_' where the metric name holds '.', and contains no '.'; a name
    without '.' is left as it is.  With [--import-metric] the given name
    is used unchanged. *)
Theorem in_metric_name_replaces_dots (metric : String.string) :
  String.length (in_metric_name metric None) = String.length metric /\
  (forall n c, String.get n metric = Some c ->
               String.get n (in_metric_name metric None)
               = Some (if Ascii.eqb c "."%char then "_"%char else c)) /\
  (forall n, String.get n (in_metric_name metric None) <> Some "."%char) /\
  ((forall n, String.get n metric <> Some "."%char) ->
   in_metric_name metric None = metric) /\
  (forall name, in_metric_name metric (Some name) = name).
Proof.
  unfold in_metric_name. split; [apply std_replace_length | split; [| split; [| split]]].
  - intros n c H. now rewrite std_replace_get, H.
  - intros n. rewrite std_replace_get. destruct (String.get n metric) as [c |]; simpl;
      [| discriminate].
    destruct (Ascii.eqb_spec c "."%char) as [-> | Hne]; [discriminate | congruence].
  - induction metric as [|c s IH]; intros H; simpl; [reflexivity |].
    destruct (Ascii.eqb_spec c "."%char) as [-> | Hne].
    + exfalso. apply (H 0%nat). reflexivity.
    + f_equal. apply IH. intros n. apply (H (S n)).
  - reflexivity.
Qed.

Lemma in_metric_name_replaces_dots_witness :
  in_metric_name dotless_name None = dotless_name.
Proof.
  destruct (in_metric_name_replaces_dots dotless_name) as (_ & _ & _ & H & _).
  apply H. intros n. do 3 (destruct n as [|n]; [discriminate |]). discriminate.
Defined.

(** X10. The selection of the metric's configuration in [main]: if some
    element of [config["metrics"]] has the metric's name, the array
    becomes that element alone, the first such element in the array;
    if none has, the array is left whole. *)
Theorem select_metric_first_match
    (metric_config : Type) (has_name : metric_config -> String.string -> bool)
    (out_metric_name : String.string) (metrics : list metric_config) :
  (exists before m after,
      metrics = before ++ m :: after /\
      has_name m out_metric_name = true /\
      Forall (fun x => has_name x out_metric_name = false) before /\
      select_metric metric_config has_name out_metric_name metrics = [m]) \/
  (Forall (fun x => has_name x out_metric_name = false) metrics /\
   select_metric metric_config has_name out_metric_name metrics = metrics).
Proof.
  unfold select_metric.
  assert (H : forall rest whole : list metric_config,
             (exists before m after,
                 rest = before ++ m :: after /\
                 has_name m out_metric_name = true /\
                 Forall (fun x => has_name x out_metric_name = false) before /\
                 select_metric_from metric_config has_name out_metric_name rest whole = [m]) \/
             (Forall (fun x => has_name x out_metric_name = false) rest /\
              select_metric_from metric_config has_name out_metric_name rest whole = whole)).
  { induction rest as [|x l IH]; intros whole; simpl.
    - right. split; [constructor | reflexivity].
    - destruct (has_name x out_metric_name) eqn:Ex.
      + left. exists [], x, l. repeat split; [assumption | constructor].
      + destruct (IH whole) as [(before & m & after & -> & Hm & Hb & E) | [Hall E]].
        * left. exists (x :: before), m, after.
          repeat split; [assumption | now constructor | exact E].
        * right. split; [now constructor | exact E]. }
  apply H.
Qed.

Lemma monotone_rejects_In (l : list source_row) (c t : TimePoint) :
  In t (monotone_rejects c l) -> exists r, In r l /\ t = hta_time_of (timestamp r).
Proof.
  revert c. induction l as [|x l IH]; intros c; simpl; [tauto |].
  destruct (c <? hta_time_of (timestamp x)).
  - intros H. destruct (IH _ H) as (r & Hr & E). exists r. split; [now right | assumption].
  - intros [<- | H]; [exists x; split; [now left | reflexivity] |].
    destruct (IH _ H) as (r & Hr & E). exists r. split; [now right | assumption].
Qed.

(** On rows in ascending order, a rejected time is at most the cursor the
    filter started from or the time of a sample it kept. *)
Lemma monotone_rejects_ascending (l : list source_row) (c t : TimePoint) :
  StronglySorted by_timestamp l ->
  Forall (fun r => 0 <= timestamp r <= 9223372036854) l ->
  In t (monotone_rejects c l) ->
  t <= c \/ In t (map time (monotone_filter c l)).
Proof.
  revert c. induction l as [|x l IH]; intros c Hs Hd; simpl; [tauto |].
  apply StronglySorted_inv in Hs. destruct Hs as [Hsl Hx].
  inversion Hd as [|? ? Hdx Hdl]; subst.
  destruct (Z.ltb_spec c (hta_time_of (timestamp x))) as [Hlt | Hge]; simpl.
  - intros H. destruct (IH _ Hsl Hdl H) as [Hle | Hin]; [| now right; right].
    apply monotone_rejects_In in H. destruct H as (r & Hr & ->).
    rewrite Forall_forall in Hx, Hdl. specialize (Hx r Hr). specialize (Hdl r Hr).
    unfold by_timestamp in Hx. rewrite !hta_time_of_exact in * by lia.
    right. left. lia.
  - intros [<- | H]; [now left |]. now apply IH.
Qed.

(** X11. Only repeated timestamps are dropped.  For a source whose
    timestamps are unix milliseconds up to 9223372036854, with a positive
    chunk width that cannot wrap and a positive row cap, every diagnostic
    "Skipping non-monotonous timestamp" a run prints concerns a row at
    timestamp 0 or a row whose time has already been inserted into the
    destination. *)
Theorem import_loop_drops_only_repeated_times
    (fuel : nat) (tbl : table) (delta upper limit lower : Z) (st : importer) :
  dated tbl ->
  0 < delta -> upper + delta <= two64 -> 1 <= limit -> 0 <= lower ->
  reached (import_loop fuel tbl delta upper limit (init_importer lower)) st ->
  forall t, In t (skipped st) -> t = 0 \/ In t (map time (out_metric st)).
Proof.
  intros Hdated Hd Hu Hlim Hlo H t Ht.
  destruct (import_loop_covers tbl delta upper limit lower fuel st Hd Hu Hlim Hlo H)
    as [_ Hrows _ Hsorted _].
  destruct (import_loop_consistent fuel tbl delta upper limit lower st H) as [Ho Hs _ _].
  assert (Hfd : Forall (fun r => 0 <= timestamp r <= 9223372036854) (fetched st)).
  { unfold dated in Hdated. rewrite Forall_forall in *. intros r Hr.
    apply Hdated. now apply Hrows. }
  rewrite Hs in Ht. rewrite Ho.
  destruct (monotone_rejects_ascending _ _ _ Hsorted Hfd Ht) as [Hle | Hin]; [| now right].
  left. apply monotone_rejects_In in Ht. destruct Ht as (r & Hr & ->).
  rewrite Forall_forall in Hfd. specialize (Hfd r Hr).
  rewrite hta_time_of_exact in * by assumption. unfold TimePoint_default in Hle. lia.
Qed.

Lemma import_loop_drops_only_repeated_times_witness :
  200000000 = 0 \/ In 200000000 (map time (out_metric scenario_B_final)).
Proof.
  apply (import_loop_drops_only_repeated_times
           20 scenario_B 500000000 301 default_chunk_size 100 scenario_B_final).
  - repeat constructor; simpl; lia.
  - lia.
  - rewrite two64_eq. lia.
  - unfold default_chunk_size. lia.
  - lia.
  - left. vm_compute. reflexivity.
  - simpl. now left.
Defined.

(** X12. The upper bound wraps: when the greatest timestamp of the source
    is 2^64 - 1 and no maximum is requested, [stats.max_timestamp + 1] is 0
    in [uint64_t].  The run then issues no chunk query and inserts no
    sample: if the chunk width computed before the loop is well-defined the
    first loop test succeeds and [import] returns with count 0, and if it is
    not the run is undefined before the loop is entered. *)
Theorem import_wrapped_upper_bound_imports_nothing
    (fuel : nat) (tbl : table) (rmin limit : Z) (sts : stats) :
  0 <= rmin ->
  stats_query (Some tbl) = Returned sts ->
  max_timestamp sts = two64 - 1 ->
  upper_bound 0 sts = 0 /\
  match chunk_timedelta sts limit with
  | Some _ =>
      exists st,
        import (S fuel) (Some tbl) rmin 0 limit = Finished st /\
        out_metric st = [] /\ fetched st = [] /\ issued st = [] /\ row st = 0
  | None =>
      import (S fuel) (Some tbl) rmin 0 limit = Aborted UndefinedBehaviour
  end.
Proof.
  intros Hrmin Es Emax.
  assert (Hup : upper_bound 0 sts = 0).
  { unfold upper_bound. simpl. rewrite Emax. unfold u64.
    replace (two64 - 1 + 1) with two64 by lia. apply Z.mod_same. rewrite two64_eq. lia. }
  split; [exact Hup |].
  unfold import. rewrite Es.
  destruct (chunk_timedelta sts limit) as [delta |]; [| reflexivity].
  exists (init_importer (lower_bound rmin sts)). simpl.
  rewrite import_turn_done; [repeat split |].
  rewrite Hup. simpl. unfold lower_bound. rewrite std_max_spec. lia.
Qed.

(** With a row cap of 1 the chunk width is defined and nothing is
    imported; with the default row cap it is not. *)
Lemma import_wrapped_upper_bound_imports_nothing_witness :
  (upper_bound 0 (mk_stats 5 18446744073709551615 2) = 0 /\
   exists st,
     import 1 (Some (rows_at [5; 18446744073709551615])) 0 0 1 = Finished st /\
     out_metric st = [] /\ fetched st = [] /\ issued st = [] /\ row st = 0) /\
  import 1 (Some (rows_at [5; 18446744073709551615])) 0 0 default_chunk_size
  = Aborted UndefinedBehaviour.
Proof.
  split.
  - apply (import_wrapped_upper_bound_imports_nothing
             0 (rows_at [5; 18446744073709551615]) 0 1
             (mk_stats 5 18446744073709551615 2)); [lia | reflexivity | reflexivity].
  - apply (import_wrapped_upper_bound_imports_nothing
             0 (rows_at [5; 18446744073709551615]) 0 default_chunk_size
             (mk_stats 5 18446744073709551615 2)); [lia | reflexivity | reflexivity].
Defined.
